(** * LedControllerWS281X: a shallow embedding of [src/ws281x.py]

    The controller renders digits and blanks as an on/off bitmap for a
    serpentine-wired LED matrix.  Every method of the Python class is
    transcribed below as an executable Rocq function:

    - Python [int] is [Z];
    - a Python [str] is the list of its code points ([ord] of each
      character), so that a text may hold any Unicode character;
    - a Python [list] is a Rocq [list], [append] adds at the right end;
    - [numbers_dict] is a finite map ([gmap]) from a character to its glyph;
    - exceptions, [exit] and [print] are threaded through two small monads:
      [outcome] (a value, a raised exception, or a loop that ran out of
      fuel) and [io] (an [outcome] together with what was printed). *)

From Stdlib Require Import ZArith Lia Ascii String.
From stdpp Require Import base list gmap strings.

Open Scope Z_scope.

(** ** Python values and effects *)

(** A Python string: the code points of its characters. *)
Abbreviation str := (list N).

(** A string literal of the source, read as a Python string. *)
Definition py_str (s : string) : str :=
  N_of_ascii <$> list_ascii_of_string s.

(** The exceptions the program can meet.  [exit(code)] raises
    [SystemExit]. *)
Inductive exn :=
| ValueError (msg : string)
| KeyError (key : N)
| IndexError
| SystemExit (code : Z).

(** The result of running a piece of code: a value, an exception, or
    [Diverge] when a [while] loop is still running after its fuel. *)
Inductive outcome (A : Type) :=
| Ok (a : A)
| Raise (e : exn)
| Diverge.
Arguments Ok {A} a.
Arguments Raise {A} e.
Arguments Diverge {A}.

#[global] Instance outcome_ret : MRet outcome := fun _ a => Ok a.
#[global] Instance outcome_bind : MBind outcome := fun _ _ f m =>
  match m with
  | Ok a => f a
  | Raise e => Raise e
  | Diverge => Diverge
  end.

(** Code that also prints: the lines written to the console, in order,
    and the outcome. *)
Definition io (A : Type) : Type := list string * outcome A.

#[global] Instance io_ret : MRet io := fun _ a => ([], Ok a).
#[global] Instance io_bind : MBind io := fun _ _ f m =>
  match m with
  | (out, Ok a) => let '(out', r) := f a in (out ++ out', r)
  | (out, Raise e) => (out, Raise e)
  | (out, Diverge) => (out, Diverge)
  end.

Definition lift {A} (m : outcome A) : io A := ([], m).

(** [print(text, end=e)]: each call is recorded as one entry, the text
    followed by its [end]; the default [end] is a line break. *)
Definition newline : string := String (ascii_of_nat 10) EmptyString.
Definition print (text : string) (e : string) : io unit :=
  ([(text ++ e)%string], Ok tt).

(** [exit(code)] *)
Definition exit {A} (code : Z) : io A := ([], Raise (SystemExit code)).

(** [for x in l: s = body(s, x)] *)
Fixpoint for_each {A St : Type} (l : list A) (body : St -> A -> outcome St)
    (s : St) : outcome St :=
  match l with
  | [] => Ok s
  | x :: l' => s' ← body s x; for_each l' body s'
  end.

(** [while cond(s): s = body(s)], run for at most [fuel] iterations. *)
Fixpoint while {St : Type} (fuel : nat) (cond : St -> bool)
    (body : St -> outcome St) (s : St) : outcome St :=
  if cond s then
    match fuel with
    | O => Diverge
    | S fuel' => s' ← body s; while fuel' cond body s'
    end
  else Ok s.

(** [range(n)] *)
Definition range (n : Z) : list Z := Z.of_nat <$> seq 0 (Z.to_nat n).

(** [len(l)] *)
Definition len {A} (l : list A) : Z := Z.of_nat (length l).

(** [l[i]]: a negative index counts from the end, an index out of range
    raises [IndexError]. *)
Definition getitem {A} (l : list A) (i : Z) : outcome A :=
  let k := if i <? 0 then len l + i else i in
  if k <? 0 then Raise IndexError
  else match l !! Z.to_nat k with
       | Some x => Ok x
       | None => Raise IndexError
       end.

(** [l.pop()] *)
Definition pop {A} (l : list A) : outcome (list A) :=
  match l with
  | [] => Raise IndexError
  | _ => Ok (removelast l)
  end.

(** ** The class *)

(** *** Class variables: the font *)

Definition free    : str := py_str "00000000".
Definition dot     : str := py_str "00010000".
Definition zero_0  : str := py_str "11111111100000011000000111111111".
Definition one_1   : str := py_str "00000000000000001111111100000000".
Definition two_2   : str := py_str "10011111100100011001000111110001".
Definition three_3 : str := py_str "10000001100100011001000111111111".
Definition four_4  : str := py_str "11110000000100000001000011111111".
Definition five_5  : str := py_str "11110001100100011001000110011111".
Definition six_6   : str := py_str "11111111100100011001000110011111".
Definition seven_7 : str := py_str "10000000100000001000000011111111".
Definition eight_8 : str := py_str "11111111100100011001000111111111".
Definition nine_9  : str := py_str "11110001100100011001000111111111".

(** [ord] of a one-character literal. *)
Definition ord (c : ascii) : N := N_of_ascii c.

Definition numbers_dict : gmap N str :=
  list_to_map
    [ (ord " ", free);
      (ord "0", zero_0);
      (ord "1", one_1);
      (ord "2", two_2);
      (ord "3", three_3);
      (ord "4", four_4);
      (ord "5", five_5);
      (ord "6", six_6);
      (ord "7", seven_7);
      (ord "8", eight_8);
      (ord "9", nine_9) ].

(** *** Instance state *)

Record LedControllerWS281X := {
  ROWS : Z;
  COLS : Z;
  NUM_LEDS : Z;
  FIRST_LED : list Z
}.

Definition set_FIRST_LED (self : LedControllerWS281X) (v : list Z) :=
  {| ROWS := ROWS self; COLS := COLS self;
     NUM_LEDS := NUM_LEDS self; FIRST_LED := v |}.

(** *** [__is_digit] *)

Definition __is_digit (digit : N) : bool :=
  ((48 <=? digit)%N && (digit <=? 57)%N) || (digit =? 32)%N.

(** *** [__create_first_led_numbers_array] *)

(** One turn of the [while] loop; the state is [(i, FIRST_LED)]. *)
Definition first_led_body (self : LedControllerWS281X)
    (s : Z * list Z) : outcome (Z * list Z) :=
  let '(i, first_led) := s in
  let first := i + (2 * ROWS self) - 1 in
  let i := i + (2 * ROWS self) in
  let first_led := first_led ++ [first] in
  if negb (i =? NUM_LEDS self)
  then Ok (i, first_led ++ [i])
  else Ok (i, first_led).

Definition first_led_cond (self : LedControllerWS281X)
    (s : Z * list Z) : bool :=
  fst s <? NUM_LEDS self.

(** The loop adds at least one to [i] each turn (it is only reached with
    [ROWS > 0]), so [NUM_LEDS] turns are enough fuel: see
    [first_led_loop_total]. *)
Definition __create_first_led_numbers_array (self : LedControllerWS281X)
    : outcome LedControllerWS281X :=
  if (ROWS self <? 0) || (COLS self <? 0) then
    Raise (ValueError "ROWS and COLS cannot be negative")
  else if (ROWS self =? 0) || (COLS self =? 0) then
    Raise (ValueError "ROWS and COLS must be > 1.")
  else
    s ← while (Z.to_nat (NUM_LEDS self)) (first_led_cond self)
          (first_led_body self) (0, FIRST_LED self);
    Ok (set_FIRST_LED self (snd s)).

(** *** [__init__] *)

Definition __init__ (rows cols : Z) : io LedControllerWS281X :=
  let self := {| ROWS := rows; COLS := cols;
                 NUM_LEDS := rows * cols; FIRST_LED := [0] |} in
  match __create_first_led_numbers_array self with
  | Raise (ValueError err) => print err newline;; exit 1
  | r => lift r
  end.

(** *** [__text_to_bit_string] *)

(** The inner [for bit in ...] loop body: one glyph character becomes one
    integer. *)
Definition append_bit (bit_string : list Z) (bit : N) : outcome (list Z) :=
  if (bit =? ord "0")%N
  then Ok (bit_string ++ [0])
  else Ok (bit_string ++ [1]).

(** The outer [for text_bit in text_bits] loop body; a missing key of
    [numbers_dict] raises [KeyError]. *)
Definition append_glyph (bit_string : list Z) (text_bit : N)
    : outcome (list Z) :=
  match numbers_dict !! text_bit with
  | Some glyph => for_each glyph append_bit bit_string
  | None => Raise (KeyError text_bit)
  end.

Definition __text_to_bit_string (self : LedControllerWS281X) (text : str)
    : outcome (list Z) :=
  let bit_string := [] in
  let text_bits := filter (fun i => __is_digit i = true) text in
  bit_string ← for_each text_bits append_glyph bit_string;
  if len bit_string <? NUM_LEDS self then
    while (Z.to_nat (NUM_LEDS self - len bit_string))
      (fun bs => len bs <? NUM_LEDS self)
      (fun bs => Ok (bs ++ [0])) bit_string
  else if len bit_string >? NUM_LEDS self then
    while (Z.to_nat (len bit_string - NUM_LEDS self))
      (fun bs => len bs >? NUM_LEDS self)
      pop bit_string
  else Ok bit_string.

(** *** [__create_columns_array] *)

(** One turn of the [for bit in bit_string] loop; the state is
    [(byte_array, i, tmp)].  The literal [8] is the source's; [int(bit)]
    is [bit], the bits being integers already. *)
Definition columns_step (s : list (list Z) * Z * list Z) (bit : Z)
    : outcome (list (list Z) * Z * list Z) :=
  let '(byte_array, i, tmp) := s in
  if i =? 0 then Ok (byte_array, i + 1, tmp ++ [bit])
  else if negb (i mod 8 =? 0) then Ok (byte_array, i + 1, tmp ++ [bit])
  else Ok (byte_array ++ [tmp], 1, [bit]).

Definition __create_columns_array (bit_string : list Z)
    : outcome (list (list Z)) :=
  '(byte_array, _, tmp) ← for_each bit_string columns_step ([], 0, []);
  Ok (byte_array ++ [tmp]).

(** *** [__arrange_array] *)

(** One turn of [for j in range(len(columns_array))]. *)
Definition arrange_step (columns_array : list (list Z))
    (columns_array_sorted : list (list Z)) (j : Z)
    : outcome (list (list Z)) :=
  if j =? 0 then
    col ← getitem columns_array j;
    Ok (columns_array_sorted ++ [col])
  else if negb (j mod 2 =? 0) then
    col ← getitem columns_array j;
    let array_inv := reverse col in
    Ok (columns_array_sorted ++ [array_inv])
  else
    col ← getitem columns_array j;
    Ok (columns_array_sorted ++ [col]).

Definition __arrange_array (columns_array : list (list Z))
    : outcome (list Z) :=
  columns_array_sorted ←
    for_each (range (len columns_array)) (arrange_step columns_array) [];
  for_each columns_array_sorted
    (fun arranged_array arr =>
       for_each arr (fun acc a => Ok (acc ++ [a])) arranged_array)
    [].

(** *** [__print_to_console] *)

Fixpoint for_each_io {A : Type} (l : list A) (body : A -> io unit)
    : io unit :=
  match l with
  | [] => mret tt
  | x :: l' => body x;; for_each_io l' body
  end.

(** The value of [led] for row [i] and column [j]. *)
Definition led_number (self : LedControllerWS281X) (i j : Z) : outcome Z :=
  if j =? 0 then
    f ← getitem (FIRST_LED self) j; Ok (f + i)
  else if j mod 2 =? 0 then
    f ← getitem (FIRST_LED self) j; Ok (f + i)
  else
    f ← getitem (FIRST_LED self) j; Ok (f - i).

(** The body of the inner loop. *)
Definition print_led (self : LedControllerWS281X) (arranged_array : list Z)
    (i j : Z) : io unit :=
  led ← lift (led_number self i j);
  v ← lift (getitem arranged_array led);
  if v =? 0 then print " " " " else print "1" " ".

Definition __print_to_console (self : LedControllerWS281X)
    (arranged_array : list Z) : io unit :=
  for_each_io (range (ROWS self)) (fun i =>
    for_each_io (range (COLS self)) (fun j =>
      print_led self arranged_array i j);;
    print EmptyString newline).

(** *** [run] *)

Definition run (self : LedControllerWS281X) (text : str) (show : bool)
    : io (list Z) :=
  text_bits ← lift (__text_to_bit_string self text);
  bit_string ← lift (__create_columns_array text_bits);
  arranged_array ← lift (__arrange_array bit_string);
  (if show then __print_to_console self arranged_array else mret tt);;
  mret arranged_array.

(** ** What the methods compute

    Closed forms of the loops above; each is proved equal to the code
    further down. *)

(** The integer a glyph character stands for. *)
Definition bit_of (bit : N) : Z := if (bit =? ord "0")%N then 0 else 1.

(** The bits of the glyph of one character; nothing for a character
    outside the font. *)
Definition glyph_bits (c : N) : list Z :=
  match numbers_dict !! c with
  | Some glyph => bit_of <$> glyph
  | None => []
  end.

(** The untruncated encoding of a text: the glyphs of its digits and
    blanks, in input order. *)
Definition encoding (text : str) : list Z :=
  concat (glyph_bits <$> filter (fun i => __is_digit i = true) text).

(** The encoding brought to [n] bits: zero-padded on the right when it is
    shorter, cut on the right when it is longer. *)
Definition canvas (n : nat) (enc : list Z) : list Z :=
  take n (enc ++ replicate (n - length enc) 0).

(** [l] cut from the left into pieces of [n] elements; the last piece
    holds what is left.  The fuel bounds the number of pieces. *)
Fixpoint chunks_aux {A : Type} (fuel n : nat) (l : list A) : list (list A) :=
  match fuel, l with
  | O, _ | _, [] => []
  | S fuel', _ => take n l :: chunks_aux fuel' n (drop n l)
  end.

Definition chunks {A : Type} (n : nat) (l : list A) : list (list A) :=
  chunks_aux (length l) n l.

(** What [__create_columns_array] returns: the groups of eight bits of
    its input, and one empty group for an empty input. *)
Definition columns_of (bit_string : list Z) : list (list Z) :=
  match bit_string with
  | [] => [[]]
  | _ => chunks 8 bit_string
  end.

(** Column [j] as it is sent: upside down when [j] is odd. *)
Definition flip (j : nat) (col : list Z) : list Z :=
  if Nat.odd j then reverse col else col.

(** What [__arrange_array] returns. *)
Definition arranged (columns_array : list (list Z)) : list Z :=
  concat (imap flip columns_array).

(** The number of the LED at the top row of column [j]: columns are wired
    downwards when [j] is even and upwards when [j] is odd. *)
Definition first_led_entry (rows : Z) (j : nat) : Z :=
  if Nat.even j then Z.of_nat j * rows else (Z.of_nat j + 1) * rows - 1.

Definition first_led_table (rows : Z) (n : nat) : list Z :=
  first_led_entry rows <$> seq 0 n.

(** The number of entries the loop leaves in [FIRST_LED]: the loop works
    on two columns a turn. *)
Definition first_led_size (cols : Z) : nat :=
  if Z.even cols then Z.to_nat cols else (Z.to_nat cols + 2)%nat.

(** The controller that construction yields for a valid geometry. *)
Definition controller (rows cols : Z) : LedControllerWS281X :=
  {| ROWS := rows; COLS := cols; NUM_LEDS := rows * cols;
     FIRST_LED := first_led_table rows (first_led_size cols) |}.

(** What [run] returns on a matrix of [num] LEDs. *)
Definition render (num : Z) (text : str) : list Z :=
  arranged (columns_of (canvas (Z.to_nat num) (encoding text))).

(** The number of digits and of blanks in a text. *)
Definition count_digits (text : str) : nat :=
  length (filter (fun c => ((48 <=? c)%N && (c <=? 57)%N) = true) text).

Definition count_blanks (text : str) : nat :=
  length (filter (fun c => (c =? 32)%N = true) text).

(** What [__print_to_console] writes for one LED. *)
Definition marker (v : Z) : string :=
  if v =? 0 then (" " ++ " ")%string else ("1" ++ " ")%string.

(** The picture of a canvas held column by column, [rows] bits a column:
    one line a row, one marker a column, each line closed by a line
    break. *)
Definition picture (rows cols : Z) (bits : list Z) : list string :=
  concat ((fun i =>
      ((fun j => marker (nth (Z.to_nat (j * rows + i)) bits 0)) <$> range cols)
      ++ [(EmptyString ++ newline)%string])
    <$> range rows).

(** ** Loops *)

Section Loops.
Context {A St : Type}.

(** A [for] loop whose body never raises is a left fold. *)
Lemma for_each_pure (f : St -> A -> St) (l : list A) (s : St) :
  for_each l (fun s x => Ok (f s x)) s = Ok (foldl f s l).
Proof.
  revert s. induction l as [|x l IH]; intros s; simpl; [done|].
  apply IH.
Qed.

Lemma for_each_app (body : St -> A -> outcome St) (l1 l2 : list A) (s : St) :
  for_each (l1 ++ l2) body s = s' ← for_each l1 body s; for_each l2 body s'.
Proof.
  revert s. induction l1 as [|x l1 IH]; intros s; simpl; [done|].
  destruct (body s x); simpl; auto.
Qed.

(** A [while] loop with an invariant [I] and a variant [m] that each turn
    decreases returns, once the fuel covers the variant. *)
Lemma while_total (cond : St -> bool) (body : St -> outcome St)
    (I : St -> Prop) (m : St -> nat) :
  (forall s, I s -> cond s = true ->
     exists s', body s = Ok s' /\ I s' /\ (m s' < m s)%nat) ->
  forall fuel s, I s -> (m s <= fuel)%nat ->
    exists s', while fuel cond body s = Ok s' /\ I s' /\ cond s' = false.
Proof.
  intros Hstep fuel. induction fuel as [|fuel IH]; intros s HI Hm.
  - simpl. destruct (cond s) eqn:Hc.
    + destruct (Hstep s HI Hc) as (s' & _ & _ & Hlt). lia.
    + eauto.
  - simpl. destruct (cond s) eqn:Hc; [|eauto].
    destruct (Hstep s HI Hc) as (s' & Hb & HI' & Hlt).
    rewrite Hb. simpl. apply IH; [done|lia].
Qed.
End Loops.

Lemma len_app {A} (l1 l2 : list A) : len (l1 ++ l2) = len l1 + len l2.
Proof. unfold len. rewrite length_app. lia. Qed.

Lemma len_snoc {A} (l : list A) (x : A) : len (l ++ [x]) = len l + 1.
Proof. rewrite len_app. done. Qed.

Lemma len_nonneg {A} (l : list A) : 0 <= len l.
Proof. unfold len. lia. Qed.

(** ** The font encoder *)

Lemma is_digit_cases (c : N) :
  __is_digit c = true ->
  (c = 32 \/ c = 48 \/ c = 49 \/ c = 50 \/ c = 51 \/ c = 52 \/ c = 53 \/
   c = 54 \/ c = 55 \/ c = 56 \/ c = 57)%N.
Proof.
  unfold __is_digit.
  rewrite orb_true_iff, andb_true_iff, !N.leb_le, N.eqb_eq. lia.
Qed.

(** Every character that passes [__is_digit] is a key of [numbers_dict]:
    the lookup in [__text_to_bit_string] never raises [KeyError]. *)
Lemma is_digit_lookup (c : N) :
  __is_digit c = true -> is_Some (numbers_dict !! c).
Proof.
  intros H. apply is_digit_cases in H.
  repeat (destruct H as [->|H]; [vm_compute; eauto|]).
  subst. vm_compute; eauto.
Qed.

Lemma append_bits_spec (glyph : str) (bs : list Z) :
  for_each glyph append_bit bs = Ok (bs ++ (bit_of <$> glyph)).
Proof.
  revert bs. induction glyph as [|b g IH]; intros bs; simpl.
  - by rewrite app_nil_r.
  - unfold append_bit, bit_of.
    destruct (b =? ord "0")%N; simpl; rewrite IH, <- app_assoc; done.
Qed.

Lemma append_glyph_spec (c : N) (bs : list Z) :
  __is_digit c = true -> append_glyph bs c = Ok (bs ++ glyph_bits c).
Proof.
  intros H. destruct (is_digit_lookup c H) as [g Hg].
  unfold append_glyph, glyph_bits. rewrite Hg. apply append_bits_spec.
Qed.

Lemma encode_loop_spec (text : str) (bs : list Z) :
  for_each (filter (fun i => __is_digit i = true) text) append_glyph bs
  = Ok (bs ++ encoding text).
Proof.
  unfold encoding. revert bs.
  induction text as [|c text IH]; intros bs; simpl.
  - by rewrite app_nil_r.
  - rewrite filter_cons. destruct (decide (__is_digit c = true)) as [Hc|Hc].
    + simpl. rewrite append_glyph_spec by done. simpl.
      rewrite IH, <- app_assoc. done.
    + apply IH.
Qed.

(** The padding loop appends zeros up to [num] bits. *)
Lemma pad_loop_spec (num : Z) (bs : list Z) (fuel : nat) :
  len bs <= num -> (Z.to_nat (num - len bs) <= fuel)%nat ->
  while fuel (fun bs => len bs <? num) (fun bs => Ok (bs ++ [0])) bs
  = Ok (bs ++ replicate (Z.to_nat (num - len bs)) 0).
Proof.
  intros Hle Hfuel.
  destruct (while_total (fun bs => len bs <? num) (fun bs => Ok (bs ++ [0]))
    (fun bs' => len bs' <= num /\
       bs' = bs ++ replicate (Z.to_nat (len bs' - len bs)) 0)
    (fun bs' => Z.to_nat (num - len bs'))) with (fuel := fuel) (s := bs)
    as (bs' & Hrun & [Hle' Heq] & Hexit).
  - intros s [Hs Heq] Hc. apply Z.ltb_lt in Hc.
    exists (s ++ [0]). rewrite !len_snoc.
    repeat split; [lia| |lia].
    rewrite Heq at 1. rewrite <- app_assoc. f_equal.
    assert (len bs <= len s).
    { rewrite Heq, len_app. pose proof (len_nonneg (replicate (Z.to_nat (len s - len bs)) 0)). lia. }
    replace (Z.to_nat (len s + 1 - len bs)) with (S (Z.to_nat (len s - len bs))) by lia.
    by rewrite replicate_S_end.
  - split; [done|]. rewrite Z.sub_diag. simpl. by rewrite app_nil_r.
  - done.
  - rewrite Hrun. apply Z.ltb_ge in Hexit.
    replace num with (len bs') by lia. by rewrite <- Heq.
Qed.

(** The popping loop cuts down to [num] bits. *)
Lemma pop_loop_spec (num : Z) (bs : list Z) (fuel : nat) :
  0 <= num -> (Z.to_nat (len bs - num) <= fuel)%nat ->
  while fuel (fun bs => len bs >? num) pop bs
  = Ok (take (Z.to_nat (Z.min num (len bs))) bs).
Proof.
  intros Hnum Hfuel.
  destruct (while_total (fun bs => len bs >? num) pop
    (fun bs' => bs' = take (length bs') bs /\
                Z.min num (len bs) <= len bs' <= len bs)
    (fun bs' => Z.to_nat (len bs' - num))) with (fuel := fuel) (s := bs)
    as (bs' & Hrun & [Heq Hle] & Hexit).
  - intros s [Heq Hs] Hc. apply Z.gtb_lt in Hc.
    destruct s as [|x s] using rev_ind; [unfold len in Hc; simpl in Hc; lia|].
    clear IHs. exists s. unfold pop. rewrite removelast_last.
    rewrite len_snoc in *. rewrite length_app in *. simpl in *.
    repeat split.
    + by destruct s.
    + apply (f_equal (take (length s))) in Heq.
      rewrite take_app_length, take_take in Heq.
      rewrite Heq at 1. f_equal. lia.
    + lia.
    + lia.
    + lia.
  - split; [by rewrite firstn_all|lia].
  - done.
  - rewrite Hrun. rewrite Z.gtb_ltb in Hexit. apply Z.ltb_ge in Hexit.
    rewrite Heq at 1. do 2 f_equal. unfold len in *. lia.
Qed.

Lemma canvas_length (n : nat) (enc : list Z) : length (canvas n enc) = n.
Proof.
  unfold canvas. rewrite length_take, length_app, length_replicate. lia.
Qed.

Lemma canvas_short (n : nat) (enc : list Z) :
  (length enc <= n)%nat -> canvas n enc = enc ++ replicate (n - length enc) 0.
Proof.
  intros H. unfold canvas. apply take_ge.
  rewrite length_app, length_replicate. lia.
Qed.

Lemma canvas_long (n : nat) (enc : list Z) :
  (n <= length enc)%nat -> canvas n enc = take n enc.
Proof.
  intros H. unfold canvas.
  replace (n - length enc)%nat with 0%nat by lia. simpl.
  by rewrite app_nil_r.
Qed.

(** [__text_to_bit_string] never raises and returns the canvas. *)
Lemma text_to_bit_string_spec (self : LedControllerWS281X) (text : str) :
  0 <= NUM_LEDS self ->
  __text_to_bit_string self text
  = Ok (canvas (Z.to_nat (NUM_LEDS self)) (encoding text)).
Proof.
  intros Hnum. unfold __text_to_bit_string.
  rewrite encode_loop_spec. simpl.
  destruct (len (encoding text) <? NUM_LEDS self) eqn:Hlt.
  - apply Z.ltb_lt in Hlt. rewrite pad_loop_spec by lia.
    rewrite canvas_short by (unfold len in Hlt; lia).
    do 3 f_equal. unfold len. lia.
  - apply Z.ltb_ge in Hlt.
    destruct (len (encoding text) >? NUM_LEDS self) eqn:Hgt.
    + rewrite pop_loop_spec by lia.
      rewrite canvas_long by (unfold len in Hlt; lia).
      do 3 f_equal. lia.
    + rewrite Z.gtb_ltb in Hgt. apply Z.ltb_ge in Hgt.
      rewrite canvas_short by (unfold len in Hgt; lia).
      replace (Z.to_nat (NUM_LEDS self) - length (encoding text))%nat
        with 0%nat by (unfold len in *; lia).
      simpl. by rewrite app_nil_r.
Qed.

(** ** Splitting into columns *)

Section Chunks.
Context {A : Type}.

Lemma chunks_aux_fuel (n : nat) (fuel : nat) (l : list A) :
  (0 < n)%nat -> (length l <= fuel)%nat ->
  chunks_aux fuel n l = chunks n l.
Proof.
  intros Hn. unfold chunks. revert l.
  induction fuel as [fuel IH] using lt_wf_ind. intros l Hl.
  destruct fuel as [|fuel].
  - destruct l; [done|simpl in Hl; lia].
  - destruct l as [|x l]; [done|].
    cbn [chunks_aux length]. f_equal.
    assert (length (drop n (x :: l)) <= length l)%nat
      by (rewrite length_drop; simpl; lia).
    simpl in Hl.
    rewrite (IH fuel) by lia.
    rewrite (IH (length l)) by lia. done.
Qed.

Lemma chunks_nil (n : nat) : chunks n (@nil A) = [].
Proof. done. Qed.

Lemma chunks_step (n : nat) (l : list A) :
  (0 < n)%nat -> l <> [] -> chunks n l = take n l :: chunks n (drop n l).
Proof.
  intros Hn Hl. destruct l as [|x l]; [done|].
  unfold chunks at 1. cbn [chunks_aux length]. f_equal.
  apply chunks_aux_fuel; [done|]. rewrite length_drop. simpl. lia.
Qed.

Lemma chunks_app (n : nat) (l1 l2 : list A) :
  (0 < n)%nat -> length l1 = n -> chunks n (l1 ++ l2) = l1 :: chunks n l2.
Proof.
  intros Hn Hl. subst n. rewrite chunks_step; [|done|].
  - by rewrite take_app_length, drop_app_length.
  - destruct l1; [simpl in Hn; lia|done].
Qed.

Lemma chunks_last (n : nat) (l : list A) :
  l <> [] -> (length l <= n)%nat -> chunks n l = [l].
Proof.
  intros Hl Hn. rewrite chunks_step; [|destruct l; simpl in *; [done|lia]|done].
  rewrite take_ge, drop_ge by done. done.
Qed.

Lemma chunks_concat (n : nat) (l : list A) :
  (0 < n)%nat -> concat (chunks n l) = l.
Proof.
  intros Hn. remember (length l) as k eqn:Hk. revert l Hk.
  induction k as [k IH] using lt_wf_ind. intros l ->.
  destruct l as [|x l]; [done|].
  rewrite chunks_step by done. cbn [concat].
  rewrite (IH (length (drop n (x :: l)))); [apply take_drop| |done].
  rewrite length_drop. simpl. lia.
Qed.

(** Group [j] holds the elements [n*j .. n*j + n - 1]. *)
Lemma chunks_lookup (n : nat) (l : list A) (j : nat) :
  (0 < n)%nat -> (n * j < length l)%nat ->
  chunks n l !! j = Some (take n (drop (n * j) l)).
Proof.
  intros Hn. revert l. induction j as [|j IH]; intros l Hj.
  - rewrite chunks_step; [|done|destruct l; simpl in *; [lia|done]].
    by rewrite Nat.mul_0_r.
  - rewrite chunks_step; [|done|destruct l; simpl in *; [lia|done]].
    cbn [lookup list_lookup]. rewrite IH by (rewrite length_drop; lia).
    rewrite drop_drop. do 3 f_equal. lia.
Qed.

Lemma chunks_length (n : nat) (l : list A) (k : nat) :
  (0 < n)%nat -> length l = (n * k)%nat -> length (chunks n l) = k.
Proof.
  intros Hn. revert l. induction k as [|k IH]; intros l Hl.
  - destruct l; [done|simpl in Hl; lia].
  - rewrite chunks_step; [|done|destruct l; simpl in *; [lia|done]].
    simpl. f_equal. apply IH. rewrite length_drop. lia.
Qed.
End Chunks.

(** The two ways a turn of the splitting loop goes once [tmp] is not
    empty: the bit joins the open group, or it opens the next one. *)
Lemma columns_step_fill (byte_array : list (list Z)) (tmp : list Z) (b : Z) :
  (1 <= length tmp < 8)%nat ->
  columns_step (byte_array, len tmp, tmp) b
  = Ok (byte_array, len (tmp ++ [b]), tmp ++ [b]).
Proof.
  intros H. unfold columns_step. rewrite len_snoc.
  replace (len tmp =? 0) with false by (unfold len; lia).
  replace (len tmp mod 8 =? 0) with false; [done|].
  symmetry. apply Z.eqb_neq. unfold len. rewrite Z.mod_small by lia. lia.
Qed.

Lemma columns_step_flush (byte_array : list (list Z)) (tmp : list Z) (b : Z) :
  length tmp = 8%nat ->
  columns_step (byte_array, len tmp, tmp) b
  = Ok (byte_array ++ [tmp], len [b], [b]).
Proof.
  intros H. unfold columns_step, len. rewrite H. done.
Qed.

(** The splitting loop, started with a group [tmp] that holds between one
    and eight bits, cuts [tmp ++ rest] into groups of eight. *)
Lemma columns_loop_spec (rest : list Z) (byte_array : list (list Z))
    (tmp : list Z) :
  (1 <= length tmp <= 8)%nat ->
  exists byte_array' i' tmp',
    for_each rest columns_step (byte_array, len tmp, tmp)
    = Ok (byte_array', i', tmp') /\
    byte_array' ++ [tmp'] = byte_array ++ chunks 8 (tmp ++ rest).
Proof.
  revert byte_array tmp.
  induction rest as [|b rest IH]; intros byte_array tmp Htmp.
  - exists byte_array, (len tmp), tmp. split; [done|].
    rewrite app_nil_r, chunks_last; [done| |lia].
    destruct tmp; simpl in *; [lia|done].
  - cbn [for_each].
    destruct (decide (length tmp = 8%nat)) as [H8|H8].
    + rewrite columns_step_flush by done.
      destruct (IH (byte_array ++ [tmp]) [b]) as (ba' & i' & tmp' & Hrun & Heq);
        [simpl; lia|].
      exists ba', i', tmp'. split; [exact Hrun|].
      rewrite Heq, (chunks_app 8 tmp) by (done || lia).
      rewrite <- app_assoc. done.
    + rewrite columns_step_fill by lia.
      destruct (IH byte_array (tmp ++ [b])) as (ba' & i' & tmp' & Hrun & Heq);
        [rewrite length_app; simpl; lia|].
      exists ba', i', tmp'. split; [exact Hrun|].
      rewrite Heq, <- app_assoc. done.
Qed.

Lemma create_columns_array_spec (bit_string : list Z) :
  __create_columns_array bit_string = Ok (columns_of bit_string).
Proof.
  unfold __create_columns_array. destruct bit_string as [|b rest]; [done|].
  destruct (columns_loop_spec rest [] [b]) as (ba' & i' & tmp' & Hrun & Heq);
    [simpl; lia|].
  cbn [for_each].
  change (columns_step ([], 0, []) b) with (Ok (@nil (list Z), len [b], [b])).
  simpl. rewrite Hrun. simpl. by rewrite Heq.
Qed.

Lemma columns_of_concat (bit_string : list Z) :
  concat (columns_of bit_string) = bit_string.
Proof.
  destruct bit_string; [done|]. apply chunks_concat. lia.
Qed.

(** The example of the docstring of [__create_columns_array]. *)
Example columns_docstring :
  __create_columns_array
    [0;0;0;0;0;0;0;0;0;0;0;0;0;0;0;0;1;1;1;1;1;1;1;1;0;0;0;0;0;0;0;0] =
  Ok [[0;0;0;0;0;0;0;0];[0;0;0;0;0;0;0;0];[1;1;1;1;1;1;1;1];[0;0;0;0;0;0;0;0]].
Proof. reflexivity. Qed.

(** ** Arranging the columns *)

Lemma getitem_lookup {A} (l : list A) (k : nat) (x : A) :
  l !! k = Some x -> getitem l (Z.of_nat k) = Ok x.
Proof.
  intros H. unfold getitem.
  destruct (Z.ltb_spec (Z.of_nat k) 0) as [?|_]; [lia|].
  destruct (Z.ltb_spec (Z.of_nat k) 0) as [?|_]; [lia|].
  by rewrite Nat2Z.id, H.
Qed.

Lemma mod2_of_nat (k : nat) : (Z.of_nat k mod 2 =? 0) = Nat.even k.
Proof.
  rewrite <- Zeven_mod. destruct (Nat.even k) eqn:E.
  - apply Nat.even_spec in E as [m ->].
    apply Z.even_spec. exists (Z.of_nat m). lia.
  - rewrite <- Nat.negb_odd in E. apply negb_false_iff, Nat.odd_spec in E as [m ->].
    rewrite <- Z.negb_odd. apply negb_false_iff, Z.odd_spec.
    exists (Z.of_nat m). lia.
Qed.

Lemma arrange_step_spec (columns_array sorted : list (list Z)) (k : nat)
    (col : list Z) :
  columns_array !! k = Some col ->
  arrange_step columns_array sorted (Z.of_nat k) = Ok (sorted ++ [flip k col]).
Proof.
  intros H. unfold arrange_step, flip.
  rewrite (getitem_lookup _ _ _ H). simpl.
  destruct (Z.eqb_spec (Z.of_nat k) 0) as [H0|H0].
  - assert (k = 0%nat) as -> by lia. done.
  - rewrite mod2_of_nat, <- Nat.negb_even. by destruct (Nat.even k).
Qed.

(** The first loop of [__arrange_array], from column [length done] on. *)
Lemma arrange_loop_spec (rest done sorted : list (list Z)) :
  for_each (Z.of_nat <$> seq (length done) (length rest))
    (arrange_step (done ++ rest)) sorted
  = Ok (sorted ++ imap (fun j => flip (length done + j)) rest).
Proof.
  revert done sorted.
  induction rest as [|col rest IH]; intros done sorted; simpl.
  - by rewrite app_nil_r.
  - rewrite (arrange_step_spec _ _ _ col)
      by (rewrite lookup_app_r, Nat.sub_diag by lia; done).
    simpl. specialize (IH (done ++ [col]) (sorted ++ [flip (length done) col])).
    rewrite length_app, Nat.add_1_r, <- app_assoc in IH. simpl in IH.
    etrans; [exact IH|].
    rewrite <- app_assoc, Nat.add_0_r. simpl. do 3 f_equal.
    apply imap_ext. intros j x _. simpl. f_equal. lia.
Qed.

(** The second loop of [__arrange_array] joins the columns. *)
Lemma join_loop_spec (sorted : list (list Z)) (acc : list Z) :
  for_each sorted
    (fun arranged_array arr =>
       for_each arr (fun acc a => Ok (acc ++ [a])) arranged_array) acc
  = Ok (acc ++ concat sorted).
Proof.
  revert acc. induction sorted as [|arr sorted IH]; intros acc; simpl.
  - by rewrite app_nil_r.
  - assert (forall (l acc : list Z),
      for_each l (fun acc a => Ok (acc ++ [a])) acc = Ok (acc ++ l)) as Hin.
    { clear. induction l as [|a l IHl]; intros acc; simpl.
      - by rewrite app_nil_r.
      - rewrite IHl, <- app_assoc. done. }
    rewrite Hin. simpl. rewrite IH, <- app_assoc. done.
Qed.

Lemma arrange_array_spec (columns_array : list (list Z)) :
  __arrange_array columns_array = Ok (arranged columns_array).
Proof.
  unfold __arrange_array, arranged, range, len.
  rewrite Nat2Z.id.
  pose proof (arrange_loop_spec columns_array [] []) as H.
  simpl in H. rewrite H. simpl. apply join_loop_spec.
Qed.

(** Arranging moves bits inside their column only. *)
Lemma arranged_Permutation (columns_array : list (list Z)) :
  arranged columns_array ≡ₚ concat columns_array.
Proof.
  unfold arranged.
  assert (forall (f : nat -> list Z -> list Z),
    (forall j col, f j col ≡ₚ col) ->
    concat (imap f columns_array) ≡ₚ concat columns_array) as H.
  { induction columns_array as [|col cols IH]; intros f Hf; simpl; [done|].
    rewrite Hf. apply Permutation_app_head. apply IH.
    intros j c. unfold compose. apply Hf. }
  apply H. intros j col. unfold flip.
  destruct (Nat.odd j); [apply reverse_Permutation|done].
Qed.

(** ** The first-LED table *)

Lemma first_led_table_S (rows : Z) (n : nat) :
  first_led_table rows (S n)
  = first_led_table rows n ++ [first_led_entry rows n].
Proof. unfold first_led_table. by rewrite seq_S, fmap_app. Qed.

Lemma first_led_table_length (rows : Z) (n : nat) :
  length (first_led_table rows n) = n.
Proof. unfold first_led_table. by rewrite length_fmap, length_seq. Qed.

Lemma first_led_table_lookup (rows : Z) (n j : nat) :
  (j < n)%nat -> first_led_table rows n !! j = Some (first_led_entry rows j).
Proof.
  intros H. unfold first_led_table.
  rewrite list_lookup_fmap, lookup_seq_lt by done. done.
Qed.

Lemma first_led_entry_odd (rows : Z) (k : nat) :
  first_led_entry rows (2 * k + 1) = 2 * rows * Z.of_nat k + 2 * rows - 1.
Proof.
  unfold first_led_entry.
  replace (Nat.even (2 * k + 1)) with false; [lia|].
  symmetry. rewrite <- Nat.negb_odd. apply negb_false_iff, Nat.odd_spec. by exists k.
Qed.

Lemma first_led_entry_even (rows : Z) (k : nat) :
  first_led_entry rows (2 * k) = 2 * rows * Z.of_nat k.
Proof.
  unfold first_led_entry.
  replace (Nat.even (2 * k)) with true; [lia|].
  symmetry. apply Nat.even_spec. by exists k.
Qed.

(** The loop of [__create_first_led_numbers_array] returns within its
    fuel, with the table of [first_led_size cols] entries. *)
Lemma first_led_loop_total (self : LedControllerWS281X) (fuel : nat) :
  0 < ROWS self -> 0 < COLS self ->
  NUM_LEDS self = ROWS self * COLS self ->
  (Z.to_nat (NUM_LEDS self) <= fuel)%nat ->
  exists i,
    while fuel (first_led_cond self) (first_led_body self) (0, [0])
    = Ok (i, first_led_table (ROWS self) (first_led_size (COLS self))).
Proof.
  intros Hr Hc Hnum Hfuel.
  destruct (while_total (first_led_cond self) (first_led_body self)
    (fun s => exists k : nat,
       fst s = 2 * ROWS self * Z.of_nat k /\
       (k = 0%nat \/ 2 * (Z.of_nat k - 1) < COLS self) /\
       snd s = first_led_table (ROWS self)
                 (if fst s =? NUM_LEDS self then 2 * k else 2 * k + 1))
    (fun s => Z.to_nat (NUM_LEDS self - fst s)))
    with (fuel := fuel) (s := (0, [0]))
    as ([i fl] & Hrun & (k & Hi & Hk & Hfl) & Hexit).
  - intros [i fl] (k & Hi & Hk & Hfl) Hcond. cbn [fst snd] in *.
    unfold first_led_cond in Hcond. cbn [fst] in Hcond.
    apply Z.ltb_lt in Hcond.
    replace (i =? NUM_LEDS self) with false in Hfl by lia.
    unfold first_led_body.
    destruct (Z.eqb_spec (i + 2 * ROWS self) (NUM_LEDS self)) as [He|He]; cbn [negb].
    + eexists. split; [done|]. cbn [fst snd]. split; [|lia].
      exists (S k). split; [lia|]. split; [right; nia|].
      replace (i + 2 * ROWS self =? NUM_LEDS self) with true by lia.
      replace (2 * S k)%nat with (S (2 * k + 1)) by lia.
      rewrite first_led_table_S, first_led_entry_odd, Hfl, Hi. done.
    + eexists. split; [done|]. cbn [fst snd]. split; [|lia].
      exists (S k). split; [lia|]. split; [right; nia|].
      replace (i + 2 * ROWS self =? NUM_LEDS self) with false by lia.
      replace (2 * S k + 1)%nat with (S (S (2 * k + 1))) by lia.
      rewrite !first_led_table_S, first_led_entry_odd.
      replace (S (2 * k + 1)) with (2 * (S k))%nat by lia.
      rewrite first_led_entry_even, Hfl, Hi. do 3 f_equal. lia.
  - exists 0%nat. cbn [fst snd]. split; [lia|]. split; [by left|].
    replace (0 =? NUM_LEDS self) with false by nia. done.
  - cbn [fst]. lia.
  - exists i. rewrite Hrun. do 2 f_equal. cbn [fst snd] in *.
    unfold first_led_cond in Hexit. cbn [fst] in Hexit. apply Z.ltb_ge in Hexit.
    rewrite Hfl. f_equal. unfold first_led_size.
    assert (COLS self <= 2 * Z.of_nat k) by nia.
    destruct Hk as [->|Hk]; [lia|].
    destruct (Z.eqb_spec i (NUM_LEDS self)) as [He|He].
    + assert (COLS self = 2 * Z.of_nat k) as Hc2 by nia.
      replace (Z.even (COLS self)) with true; [lia|].
      symmetry. apply Z.even_spec. by exists (Z.of_nat k).
    + assert (COLS self = 2 * Z.of_nat k - 1) as Hc2 by nia.
      replace (Z.even (COLS self)) with false; [lia|].
      symmetry. rewrite <- Z.negb_odd. apply negb_false_iff, Z.odd_spec.
      exists (Z.of_nat k - 1). lia.
Qed.

Lemma init_valid (rows cols : Z) :
  0 < rows -> 0 < cols -> __init__ rows cols = ([], Ok (controller rows cols)).
Proof.
  intros Hr Hc. unfold __init__, __create_first_led_numbers_array.
  cbn [ROWS COLS NUM_LEDS FIRST_LED].
  replace (rows <? 0) with false by lia.
  replace (cols <? 0) with false by lia.
  replace (rows =? 0) with false by lia.
  replace (cols =? 0) with false by lia.
  cbn [orb].
  destruct (first_led_loop_total
    {| ROWS := rows; COLS := cols; NUM_LEDS := rows * cols; FIRST_LED := [0] |}
    (Z.to_nat (rows * cols))) as [i Hrun]; simpl; try done.
  rewrite Hrun. done.
Qed.

(** Opens a goal about the controller of a valid geometry: the instance
    is the one construction returns. *)
Ltac on_controller rows cols :=
  exists (controller rows cols); split; [by apply init_valid|].

(** ** Printing *)

Lemma for_each_io_ok {A} (l : list A) (body : A -> io unit) :
  (forall x, x ∈ l -> exists out, body x = (out, Ok tt)) ->
  exists out, for_each_io l body = (out, Ok tt).
Proof.
  induction l as [|x l IH]; intros Hb; simpl.
  - by exists [].
  - destruct (Hb x) as [o1 H1]; [by constructor|].
    destruct IH as [o2 H2]; [intros y Hy; apply Hb; by constructor|].
    rewrite H1. simpl. rewrite H2. by eexists.
Qed.

Lemma elem_of_range (n x : Z) :
  x ∈ range n -> exists k : nat, x = Z.of_nat k /\ Z.of_nat k < n.
Proof.
  unfold range. intros H. apply list_elem_of_fmap in H as (k & -> & Hk).
  apply elem_of_seq in Hk. exists k. split; [done|lia].
Qed.

Lemma getitem_in_range {A} (l : list A) (i : Z) :
  0 <= i < len l -> exists x, getitem l i = Ok x.
Proof.
  intros H. unfold len in H.
  destruct (lookup_lt_is_Some_2 l (Z.to_nat i)) as [x Hx]; [lia|].
  exists x. rewrite <- (Z2Nat.id i) by lia. by apply getitem_lookup.
Qed.

(** On a controller built for a valid geometry, every LED number that
    [__print_to_console] computes lies on the matrix. *)
Lemma led_number_in_range (rows cols : Z) (ki kj : nat) :
  0 < rows -> 0 < cols -> Z.of_nat ki < rows -> Z.of_nat kj < cols ->
  exists led,
    led_number (controller rows cols) (Z.of_nat ki) (Z.of_nat kj) = Ok led /\
    0 <= led < rows * cols.
Proof.
  intros Hr Hc Hki Hkj. unfold led_number. cbn [FIRST_LED controller].
  assert (kj < first_led_size cols)%nat as Hsz.
  { unfold first_led_size. destruct (Z.even cols); lia. }
  rewrite (getitem_lookup _ _ _ (first_led_table_lookup rows _ _ Hsz)).
  rewrite mod2_of_nat. unfold first_led_entry.
  assert (Z.of_nat kj * rows + rows <= rows * cols) by nia.
  assert (0 <= Z.of_nat kj * rows) by nia.
  destruct (Z.eqb_spec (Z.of_nat kj) 0) as [Hz|Hz].
  - assert (kj = 0%nat) as -> by lia. simpl. eexists. split; [done|]. lia.
  - destruct (Nat.even kj); simpl; eexists; (split; [done|]); lia.
Qed.

(** Printing never raises. *)
Lemma print_to_console_ok (rows cols : Z) (arranged_array : list Z) :
  0 < rows -> 0 < cols -> len arranged_array = rows * cols ->
  exists out,
    __print_to_console (controller rows cols) arranged_array = (out, Ok tt).
Proof.
  intros Hr Hc Hlen. unfold __print_to_console.
  apply for_each_io_ok. intros i Hi.
  apply elem_of_range in Hi as (ki & -> & Hki).
  destruct (for_each_io_ok (range (COLS (controller rows cols)))
    (fun j => print_led (controller rows cols) arranged_array (Z.of_nat ki) j))
    as [o1 H1].
  { intros j Hj. apply elem_of_range in Hj as (kj & -> & Hkj).
    unfold print_led.
    destruct (led_number_in_range rows cols ki kj) as (led & -> & Hled);
      try done.
    destruct (getitem_in_range arranged_array led) as [v Hv]; [lia|].
    simpl. rewrite Hv. simpl. destruct (v =? 0); by eexists. }
  rewrite H1. simpl. by eexists.
Qed.

(** ** The renderer *)

Lemma render_Permutation (num : Z) (text : str) :
  render num text ≡ₚ canvas (Z.to_nat num) (encoding text).
Proof.
  unfold render. rewrite arranged_Permutation. by rewrite columns_of_concat.
Qed.

Lemma render_length (num : Z) (text : str) :
  0 <= num -> len (render num text) = num.
Proof.
  intros H. unfold len.
  rewrite (Permutation_length (render_Permutation num text)), canvas_length.
  lia.
Qed.

(** [run] returns [render]; it prints nothing unless asked to. *)
Lemma run_spec (rows cols : Z) (text : str) (show : bool) :
  0 < rows -> 0 < cols ->
  exists out,
    run (controller rows cols) text show = (out, Ok (render (rows * cols) text)) /\
    (show = false -> out = []).
Proof.
  intros Hr Hc. unfold run.
  rewrite text_to_bit_string_spec by (simpl; nia).
  cbn [NUM_LEDS controller]. simpl.
  rewrite create_columns_array_spec. simpl.
  rewrite arrange_array_spec. simpl. fold (render (rows * cols) text).
  destruct show.
  - destruct (print_to_console_ok rows cols (render (rows * cols) text))
      as [out Hout]; [done|done|apply render_length; nia|].
    rewrite Hout. simpl. eexists. split; [done|]. done.
  - simpl. by eexists.
Qed.

Lemma bit_of_bit (b : N) : bit_of b = 0 \/ bit_of b = 1.
Proof. unfold bit_of. destruct (b =? ord "0")%N; auto. Qed.

Lemma encoding_bits (text : str) :
  Forall (fun b => b = 0 \/ b = 1) (encoding text).
Proof.
  unfold encoding. apply Forall_concat, Forall_fmap, Forall_forall.
  intros c _. unfold glyph_bits. simpl.
  destruct (numbers_dict !! c); [|constructor].
  apply Forall_fmap, Forall_forall. intros b _. apply bit_of_bit.
Qed.

Lemma canvas_bits (n : nat) (text : str) :
  Forall (fun b => b = 0 \/ b = 1) (canvas n (encoding text)).
Proof.
  unfold canvas. apply Forall_take, Forall_app. split.
  - apply encoding_bits.
  - apply Forall_replicate. by left.
Qed.

(** A character that [__is_digit] rejects leaves no trace. *)
Lemma encoding_drop (t1 t2 : str) (c : N) :
  __is_digit c = false -> encoding (t1 ++ c :: t2) = encoding (t1 ++ t2).
Proof.
  intros H. unfold encoding.
  rewrite !filter_app, filter_cons.
  destruct (decide (__is_digit c = true)); [congruence|done].
Qed.

(** ** The claims *)

(** C1, where the code departs from the claim.  The split step cuts
    the canvas every 8 bits, whatever [rows] is (the literal [8] in
    [columns_step], marked "TODO: make dynamic" in the source, whose
    docstring promises groups of length rows).  On the 3 x 4 matrix and
    the text "2" the canvas has 12 bits; the code returns one group of 8
    bits and one of 4, where groups of [rows] bits would be four groups
    of 3. *)
Theorem columns_array_three_rows :
  let self := {| ROWS := 3; COLS := 4; NUM_LEDS := 12;
                 FIRST_LED := [0; 5; 6; 11] |} in
  let bits := [1;0;0;1;1;1;1;1;1;0;0;1] in
  __init__ 3 4 = ([], Ok self) /\
  __text_to_bit_string self (py_str "2") = Ok bits /\
  __create_columns_array bits = Ok [[1;0;0;1;1;1;1;1]; [1;0;0;1]] /\
  chunks (Z.to_nat (ROWS self)) bits = [[1;0;0]; [1;1;1]; [1;1;1]; [0;0;1]].
Proof. vm_compute. repeat split. Qed.

(** For every input the split step returns the groups of 8 bits. *)
Theorem create_columns_array_eight (bit_string : list Z) :
  bit_string <> [] ->
  __create_columns_array bit_string = Ok (chunks 8 bit_string).
Proof.
  intros H. rewrite create_columns_array_spec.
  by destruct bit_string.
Qed.

(** On a matrix of 8 rows the split step does what C1 says: the canvas
    is cut into [cols] groups of [rows] bits, group [j] holding the bits
    [rows*j .. rows*j + rows - 1]. *)
Theorem create_columns_array_rows_8 (cols : Z) (text : str) :
  0 < cols ->
  exists bits groups,
    __text_to_bit_string (controller 8 cols) text = Ok bits /\
    __create_columns_array bits = Ok groups /\
    len groups = cols /\
    forall j : nat, Z.of_nat j < cols ->
      groups !! j = Some (take 8 (drop (8 * j) bits)) /\
      length (take 8 (drop (8 * j) bits)) = 8%nat.
Proof.
  intros Hc.
  pose proof (canvas_length (Z.to_nat (8 * cols)) (encoding text)) as Hlen.
  exists (canvas (Z.to_nat (8 * cols)) (encoding text)).
  exists (chunks 8 (canvas (Z.to_nat (8 * cols)) (encoding text))).
  split; [apply text_to_bit_string_spec; simpl; lia|].
  split; [apply create_columns_array_eight|].
  { intros E. rewrite E in Hlen. simpl in Hlen. lia. }
  split.
  - unfold len. rewrite (chunks_length 8 _ (Z.to_nat cols)); lia.
  - intros j Hj. split.
    + apply chunks_lookup; lia.
    + rewrite length_take, length_drop. lia.
Qed.

Lemma create_columns_array_rows_8_witness :
  exists bits groups,
    __text_to_bit_string (controller 8 49) (py_str "0 1 2 3 4 5 6 7 8 9")
      = Ok bits /\
    __create_columns_array bits = Ok groups /\
    len groups = 49 /\
    forall j : nat, Z.of_nat j < 49 ->
      groups !! j = Some (take 8 (drop (8 * j) bits)) /\
      length (take 8 (drop (8 * j) bits)) = 8%nat.
Proof.
  apply (create_columns_array_rows_8 49 (py_str "0 1 2 3 4 5 6 7 8 9")). lia.
Defined.

(** C2, where the code departs from the claim.  The loop of
    [__create_first_led_numbers_array] appends the entries of two
    columns a turn and leaves out the second only when [i] lands on
    [NUM_LEDS]; with an odd number of columns it never does, and the
    table ends with two numbers of LEDs that are not there.  On the
    3 x 3 matrix (LEDs 0 to 8) the table has 5 entries. *)
Theorem first_led_three_by_three :
  __init__ 3 3 =
  ([], Ok {| ROWS := 3; COLS := 3; NUM_LEDS := 9;
             FIRST_LED := [0; 5; 6; 11; 12] |}).
Proof. reflexivity. Qed.

(** The size of the table for every valid geometry: [cols] entries when
    [cols] is even, [cols + 2] when it is odd; entry [j] is the LED at
    the top of column [j] in both cases. *)
Theorem first_led_length (rows cols : Z) :
  0 < rows -> 0 < cols ->
  exists self,
    __init__ rows cols = ([], Ok self) /\
    len (FIRST_LED self) = (if Z.even cols then cols else cols + 2) /\
    forall j : nat, Z.of_nat j < cols ->
      FIRST_LED self !! j = Some (first_led_entry rows j).
Proof.
  intros Hr Hc. on_controller rows cols. cbn [FIRST_LED controller]. split.
  - unfold len. rewrite first_led_table_length. unfold first_led_size.
    destruct (Z.even cols); lia.
  - intros j Hj. apply first_led_table_lookup. unfold first_led_size.
    destruct (Z.even cols); lia.
Qed.

Lemma first_led_length_witness :
  exists self,
    __init__ 8 49 = ([], Ok self) /\
    len (FIRST_LED self) = 51 /\
    forall j : nat, Z.of_nat j < 49 ->
      FIRST_LED self !! j = Some (first_led_entry 8 j).
Proof. apply (first_led_length 8 49); lia. Defined.

(** C3, as the code has it: the glyph of every digit has 32 bits (four
    columns of eight) and the glyph of the blank has 8 bits (one
    column). *)
Theorem font_glyph_length (c : N) (glyph : str) :
  numbers_dict !! c = Some glyph ->
  length glyph = if (c =? ord " ")%N then 8%nat else 32%nat.
Proof.
  intros H. unfold numbers_dict in H. apply elem_of_list_to_map_2 in H.
  repeat (apply elem_of_cons in H as [H|H];
          [injection H as -> ->; reflexivity|]).
  by apply elem_of_nil in H.
Qed.

Lemma font_glyph_length_witness :
  numbers_dict !! ord "7" = Some seven_7 /\ length seven_7 = 32%nat.
Proof.
  assert (numbers_dict !! ord "7" = Some seven_7) as H by (vm_compute; reflexivity).
  split; [exact H|]. exact (font_glyph_length (ord "7") seven_7 H).
Defined.

(** C3 as stated fails: the glyphs of the blank and of '0' differ in
    length. *)
Lemma font_glyph_lengths_differ :
  ~ (forall c1 c2 g1 g2,
       numbers_dict !! c1 = Some g1 -> numbers_dict !! c2 = Some g2 ->
       length g1 = length g2).
Proof.
  intros H.
  assert (numbers_dict !! ord " " = Some free) as H1 by (vm_compute; reflexivity).
  assert (numbers_dict !! ord "0" = Some zero_0) as H2 by (vm_compute; reflexivity).
  specialize (H _ _ _ _ H1 H2). vm_compute in H. discriminate H.
Qed.

(** C4, as the code has it: for a geometry with [rows <= 0] or
    [cols <= 0] the table builder raises [ValueError]; the constructor
    catches it, prints its message and calls [exit(1)].  What reaches the
    caller is [SystemExit] with status 1, and no instance. *)
Theorem init_invalid_geometry_exits (rows cols : Z) :
  rows <= 0 \/ cols <= 0 ->
  exists msg,
    __create_first_led_numbers_array
      {| ROWS := rows; COLS := cols; NUM_LEDS := rows * cols;
         FIRST_LED := [0] |} = Raise (ValueError msg) /\
    __init__ rows cols = ([(msg ++ newline)%string], Raise (SystemExit 1)).
Proof.
  intros H. unfold __init__, __create_first_led_numbers_array.
  cbn [ROWS COLS].
  destruct ((rows <? 0) || (cols <? 0)) eqn:Hneg; [by eexists|].
  destruct ((rows =? 0) || (cols =? 0)) eqn:Hzero; [by eexists|].
  apply orb_false_iff in Hneg as [? ?]. apply orb_false_iff in Hzero as [? ?].
  lia.
Qed.

Lemma init_invalid_geometry_exits_witness :
  exists msg,
    __create_first_led_numbers_array
      {| ROWS := 8; COLS := -1; NUM_LEDS := 8 * -1;
         FIRST_LED := [0] |} = Raise (ValueError msg) /\
    __init__ 8 (-1) = ([(msg ++ newline)%string], Raise (SystemExit 1)).
Proof. apply (init_invalid_geometry_exits 8 (-1)). right. lia. Defined.

(** C4 as stated fails: constructing with [rows = 0] does not hand the
    [ValueError] to the caller, the constructor has caught it. *)
Lemma init_zero_rows_no_value_error :
  __init__ 0 5 =
    (["ROWS and COLS must be > 1." ++ newline]%string, Raise (SystemExit 1)) /\
  ~ (exists out msg, __init__ 0 5 = (out, Raise (ValueError msg))).
Proof.
  split; [reflexivity|]. intros (out & msg & H). discriminate H.
Qed.

(** C5: on the 3 x 4 matrix construction leaves [FIRST_LED] equal to
    [0, 5, 6, 11]. *)
Theorem first_led_three_by_four :
  __init__ 3 4 =
  ([], Ok {| ROWS := 3; COLS := 4; NUM_LEDS := 12;
             FIRST_LED := [0; 5; 6; 11] |}).
Proof. reflexivity. Qed.

(** C6: for every valid geometry the controller is constructed, and for
    every text [run] returns a sequence of exactly [rows * cols] values,
    each 0 or 1 (with and without the console output). *)
Theorem run_length_and_bits (rows cols : Z) (text : str) (show : bool) :
  0 < rows -> 0 < cols ->
  exists self out,
    __init__ rows cols = ([], Ok self) /\
    snd (run self text show) = Ok out /\
    len out = rows * cols /\
    Forall (fun b => b = 0 \/ b = 1) out.
Proof.
  intros Hr Hc. exists (controller rows cols), (render (rows * cols) text).
  split; [by apply init_valid|].
  destruct (run_spec rows cols text show Hr Hc) as (o & -> & _).
  split; [done|]. split; [apply render_length; nia|].
  rewrite render_Permutation. apply canvas_bits.
Qed.

Lemma run_length_and_bits_witness :
  exists self out,
    __init__ 8 49 = ([], Ok self) /\
    snd (run self (py_str "0 1 2 3 4 5 6 7 8 9") true) = Ok out /\
    len out = 8 * 49 /\
    Forall (fun b => b = 0 \/ b = 1) out.
Proof.
  apply (run_length_and_bits 8 49 (py_str "0 1 2 3 4 5 6 7 8 9") true); lia.
Defined.

(** [encoding] is what the code builds before it pads or cuts: on a
    canvas of exactly that size [__text_to_bit_string] returns it
    unchanged. *)
Lemma encoding_untruncated (self : LedControllerWS281X) (text : str) :
  NUM_LEDS self = len (encoding text) ->
  __text_to_bit_string self text = Ok (encoding text).
Proof.
  intros H. rewrite text_to_bit_string_spec by (rewrite H; apply len_nonneg).
  rewrite H. unfold len. rewrite Nat2Z.id, canvas_long by done.
  by rewrite firstn_all.
Qed.

(** C7, as the code has it: when the encoding of the text is longer than
    [rows * cols], the bit canvas is its first [rows * cols] bits, and
    [run] returns [rows * cols] values that are those bits in another
    order; on a matrix of 8 rows the order is: the canvas cut into
    columns of [rows] bits, every odd-numbered column reversed. *)
Theorem run_truncates_encoding (rows cols : Z) (text : str) (show : bool) :
  0 < rows -> 0 < cols -> rows * cols < len (encoding text) ->
  exists self bits out,
    __init__ rows cols = ([], Ok self) /\
    __text_to_bit_string self text = Ok bits /\
    bits = take (Z.to_nat (rows * cols)) (encoding text) /\
    snd (run self text show) = Ok out /\
    len out = rows * cols /\
    out ≡ₚ bits /\
    (rows = 8 -> out = arranged (chunks (Z.to_nat rows) bits)).
Proof.
  intros Hr Hc Hlong.
  exists (controller rows cols), (take (Z.to_nat (rows * cols)) (encoding text)),
    (render (rows * cols) text).
  split; [by apply init_valid|].
  assert (canvas (Z.to_nat (rows * cols)) (encoding text)
          = take (Z.to_nat (rows * cols)) (encoding text)) as Hcanvas
    by (apply canvas_long; unfold len in Hlong; lia).
  split; [|split; [done|split; [|split; [|split]]]].
  - rewrite text_to_bit_string_spec by (simpl; nia). simpl. by rewrite Hcanvas.
  - by destruct (run_spec rows cols text show Hr Hc) as (o & -> & _).
  - apply render_length. nia.
  - rewrite <- Hcanvas. apply render_Permutation.
  - intros ->. unfold render. rewrite Hcanvas. unfold columns_of.
    destruct (take (Z.to_nat (8 * cols)) (encoding text)) eqn:E; [|done].
    apply (f_equal length) in E. rewrite length_take in E.
    unfold len in Hlong. simpl in E. lia.
Qed.

Lemma run_truncates_encoding_witness :
  exists self bits out,
    __init__ 8 2 = ([], Ok self) /\
    __text_to_bit_string self (py_str "2") = Ok bits /\
    bits = take (Z.to_nat (8 * 2)) (encoding (py_str "2")) /\
    snd (run self (py_str "2") false) = Ok out /\
    len out = 8 * 2 /\
    out ≡ₚ bits /\
    (8 = 8 -> out = arranged (chunks (Z.to_nat 8) bits)).
Proof.
  apply (run_truncates_encoding 8 2 (py_str "2") false); [lia|lia|].
  vm_compute. reflexivity.
Defined.

(** C7 as stated fails.  The text "2" encodes to 32 bits (what
    [__text_to_bit_string] returns on the 8 x 4 matrix, where nothing is
    cut).  On the 8 x 2 matrix, with 16 LEDs, [run] returns 16 values,
    but they are not the first 16 bits of the encoding: the second
    column is sent upside down. *)
Lemma run_truncated_not_prefix :
  let wide := {| ROWS := 8; COLS := 4; NUM_LEDS := 32;
                 FIRST_LED := [0; 15; 16; 31] |} in
  let self := {| ROWS := 8; COLS := 2; NUM_LEDS := 16;
                 FIRST_LED := [0; 15] |} in
  let enc := [1;0;0;1;1;1;1;1; 1;0;0;1;0;0;0;1;
              1;0;0;1;0;0;0;1; 1;1;1;1;0;0;0;1] in
  let out := [1;0;0;1;1;1;1;1; 1;0;0;0;1;0;0;1] in
  __init__ 8 4 = ([], Ok wide) /\
  __text_to_bit_string wide (py_str "2") = Ok enc /\
  __init__ 8 2 = ([], Ok self) /\
  NUM_LEDS self < len enc /\
  run self (py_str "2") false = ([], Ok out) /\
  out <> take (Z.to_nat (NUM_LEDS self)) enc.
Proof.
  vm_compute. repeat split; discriminate.
Qed.

Lemma run_ext (self : LedControllerWS281X) (t1 t2 : str) (show : bool) :
  __text_to_bit_string self t1 = __text_to_bit_string self t2 ->
  run self t1 show = run self t2 show.
Proof. intros H. unfold run. by rewrite H. Qed.

(** C8: for every valid geometry [run] returns the same for "1a2" and
    for "12"; more generally a character that is neither a digit nor a
    blank can be struck out of any text without changing what [run]
    returns (and prints), and [run] returns a value, never an
    exception. *)
Theorem run_drops_unsupported (rows cols : Z) (show : bool) :
  0 < rows -> 0 < cols ->
  exists self,
    __init__ rows cols = ([], Ok self) /\
    run self (py_str "1a2") show = run self (py_str "12") show /\
    forall (t1 t2 : str) (c : N),
      ~ (ord "0" <= c <= ord "9")%N -> c <> ord " " ->
      run self (t1 ++ c :: t2) show = run self (t1 ++ t2) show /\
      exists out, snd (run self (t1 ++ c :: t2) show) = Ok out.
Proof.
  intros Hr Hc. on_controller rows cols.
  assert (forall (t1 t2 : str) (c : N),
    __is_digit c = false ->
    run (controller rows cols) (t1 ++ c :: t2) show
    = run (controller rows cols) (t1 ++ t2) show) as Hdrop.
  { intros t1 t2 c H. apply run_ext.
    rewrite !text_to_bit_string_spec by (simpl; nia).
    by rewrite encoding_drop. }
  split.
  - apply (Hdrop (py_str "1") (py_str "2") (ord "a")). reflexivity.
  - intros t1 t2 c Hd Hs. split.
    + apply Hdrop. unfold __is_digit.
      apply orb_false_iff. split.
      * apply andb_false_iff.
        destruct (N.leb_spec 48 c); [right|by left].
        apply N.leb_gt. unfold ord in Hd. simpl in Hd. lia.
      * apply N.eqb_neq. exact Hs.
    + destruct (run_spec rows cols (t1 ++ c :: t2) show Hr Hc) as (o & -> & _).
      by eexists.
Qed.

Lemma run_drops_unsupported_witness :
  exists self,
    __init__ 8 32 = ([], Ok self) /\
    run self (py_str "1a2") false = run self (py_str "12") false /\
    forall (t1 t2 : str) (c : N),
      ~ (ord "0" <= c <= ord "9")%N -> c <> ord " " ->
      run self (t1 ++ c :: t2) false = run self (t1 ++ t2) false /\
      exists out, snd (run self (t1 ++ c :: t2) false) = Ok out.
Proof. apply (run_drops_unsupported 8 32 false); lia. Defined.

(** C9: for every valid geometry [run] of the empty text (the empty
    list of characters) returns [rows * cols] zeros. *)
Theorem run_empty_text (rows cols : Z) (show : bool) :
  0 < rows -> 0 < cols ->
  exists self,
    __init__ rows cols = ([], Ok self) /\
    snd (run self [] show) = Ok (replicate (Z.to_nat (rows * cols)) 0) /\
    len (replicate (Z.to_nat (rows * cols)) 0) = rows * cols.
Proof.
  intros Hr Hc. on_controller rows cols.
  destruct (run_spec rows cols [] show Hr Hc) as (o & -> & _).
  split.
  - simpl. f_equal. symmetry. apply replicate_Permutation.
    rewrite render_Permutation. change (encoding []) with (@nil Z).
    rewrite canvas_short by (simpl; lia). simpl. by rewrite Nat.sub_0_r.
  - unfold len. rewrite length_replicate. nia.
Qed.

Lemma run_empty_text_witness :
  exists self,
    __init__ 3 4 = ([], Ok self) /\
    snd (run self [] false) = Ok (replicate (Z.to_nat (3 * 4)) 0) /\
    len (replicate (Z.to_nat (3 * 4)) 0) = 3 * 4.
Proof. apply (run_empty_text 3 4 false); lia. Defined.

(** C10: for every valid geometry and every text, what
    [run(text, show=False)] returns is a permutation of the bit canvas
    that [__text_to_bit_string] returns: the same length and the same
    number of ones. *)
Theorem run_permutes_canvas (rows cols : Z) (text : str) :
  0 < rows -> 0 < cols ->
  exists self bits out,
    __init__ rows cols = ([], Ok self) /\
    __text_to_bit_string self text = Ok bits /\
    run self text false = ([], Ok out) /\
    out ≡ₚ bits /\
    length out = length bits /\
    count_occ Z.eq_dec out 1 = count_occ Z.eq_dec bits 1.
Proof.
  intros Hr Hc.
  exists (controller rows cols), (canvas (Z.to_nat (rows * cols)) (encoding text)),
    (render (rows * cols) text).
  split; [by apply init_valid|].
  split; [apply text_to_bit_string_spec; simpl; nia|].
  destruct (run_spec rows cols text false Hr Hc) as (o & -> & Ho).
  rewrite Ho by done.
  pose proof (render_Permutation (rows * cols) text) as Hp.
  repeat split; [done| |].
  - by apply Permutation_length.
  - by apply Permutation_count_occ.
Qed.

Lemma run_permutes_canvas_witness :
  exists self bits out,
    __init__ 8 4 = ([], Ok self) /\
    __text_to_bit_string self (py_str "7") = Ok bits /\
    run self (py_str "7") false = ([], Ok out) /\
    out ≡ₚ bits /\
    length out = length bits /\
    count_occ Z.eq_dec out 1 = count_occ Z.eq_dec bits 1.
Proof. apply (run_permutes_canvas 8 4 (py_str "7")); lia. Defined.

(** ** Further properties of the methods *)

(** *** Construction *)

Lemma init_ok_valid (rows cols : Z) (out : list string)
    (self : LedControllerWS281X) :
  __init__ rows cols = (out, Ok self) -> 0 < rows /\ 0 < cols.
Proof.
  intros H. unfold __init__, __create_first_led_numbers_array in H.
  cbn [ROWS COLS] in H.
  destruct ((rows <? 0) || (cols <? 0)) eqn:Hneg; [discriminate H|].
  destruct ((rows =? 0) || (cols =? 0)) eqn:Hzero; [discriminate H|].
  apply orb_false_iff in Hneg as [? ?].
  apply orb_false_iff in Hzero as [? ?]. lia.
Qed.

(** [__init__] returns an instance exactly for the geometries with
    [rows > 0] and [cols > 0] (so a 1 x 1 matrix is accepted); it then
    prints nothing and the instance holds the geometry it was given. *)
Theorem init_succeeds_iff (rows cols : Z) :
  ((exists out self, __init__ rows cols = (out, Ok self))
   <-> 0 < rows /\ 0 < cols) /\
  (forall out self, __init__ rows cols = (out, Ok self) ->
     out = [] /\ ROWS self = rows /\ COLS self = cols /\
     NUM_LEDS self = rows * cols).
Proof.
  split; [split|].
  - intros (out & self & H). by apply init_ok_valid in H.
  - intros [Hr Hc]. exists [], (controller rows cols). by apply init_valid.
  - intros out self H. destruct (init_ok_valid _ _ _ _ H) as [Hr Hc].
    rewrite init_valid in H by done. by injection H as <- <-.
Qed.

(** *** The font and the filter *)

(** The characters [__is_digit] lets through are exactly the keys of
    [numbers_dict]: the lookup of a kept character never misses, and the
    font has no glyph that the filter would never let in. *)
Theorem is_digit_iff_glyph (c : N) :
  __is_digit c = true <-> is_Some (numbers_dict !! c).
Proof.
  split; [apply is_digit_lookup|].
  intros [g H]. unfold numbers_dict in H. apply elem_of_list_to_map_2 in H.
  repeat (apply elem_of_cons in H as [H|H];
          [injection H as -> _; reflexivity|]).
  by apply elem_of_nil in H.
Qed.

Lemma glyph_bits_length (c : N) :
  __is_digit c = true ->
  length (glyph_bits c)
  = if ((48 <=? c)%N && (c <=? 57)%N) then 32%nat else 8%nat.
Proof.
  intros H. apply is_digit_cases in H.
  repeat (destruct H as [->|H]; [reflexivity|]). subst. reflexivity.
Qed.

Lemma encoding_app (t1 t2 : str) :
  encoding (t1 ++ t2) = encoding t1 ++ encoding t2.
Proof. unfold encoding. by rewrite filter_app, fmap_app, concat_app. Qed.

Lemma encoding_cons (c : N) (text : str) :
  encoding (c :: text)
  = (if __is_digit c then glyph_bits c else []) ++ encoding text.
Proof.
  unfold encoding. rewrite filter_cons.
  destruct (decide (__is_digit c = true)) as [H|H].
  - by rewrite H.
  - apply not_true_is_false in H. by rewrite H.
Qed.

Lemma encoding_length (text : str) :
  length (encoding text) = (32 * count_digits text + 8 * count_blanks text)%nat.
Proof.
  unfold count_digits, count_blanks.
  induction text as [|c text IH]; [done|].
  rewrite encoding_cons, length_app, IH, !filter_cons.
  destruct (__is_digit c) eqn:Hd.
  - rewrite glyph_bits_length by done.
    unfold __is_digit in Hd.
    destruct ((48 <=? c)%N && (c <=? 57)%N) eqn:H1.
    + destruct (decide (true = true)); [|done].
      destruct (decide ((c =? 32)%N = true)) as [H2|H2]; simpl; [|lia].
      apply N.eqb_eq in H2. subst. discriminate H1.
    + destruct (decide (false = true)); [done|].
      simpl in Hd. rewrite Hd.
      destruct (decide (true = true)); [|done]. simpl. lia.
  - unfold __is_digit in Hd. apply orb_false_iff in Hd as [-> ->].
    destruct (decide (false = true)); [done|]. simpl. lia.
Qed.

(** A matrix of exactly 32 LEDs a digit and 8 LEDs a blank holds the
    text as it is: [__text_to_bit_string] neither pads nor cuts. *)
Theorem text_to_bit_string_exact_fit (self : LedControllerWS281X) (text : str) :
  NUM_LEDS self
    = 32 * Z.of_nat (count_digits text) + 8 * Z.of_nat (count_blanks text) ->
  exists bits,
    __text_to_bit_string self text = Ok bits /\
    for_each (filter (fun i => __is_digit i = true) text) append_glyph []
      = Ok bits /\
    len bits = NUM_LEDS self.
Proof.
  intros H. exists (encoding text).
  assert (len (encoding text) = NUM_LEDS self) as Hlen
    by (unfold len; rewrite encoding_length; lia).
  split; [by apply encoding_untruncated|].
  split; [apply (encode_loop_spec text [])|done].
Qed.

Lemma text_to_bit_string_exact_fit_witness :
  exists bits,
    __text_to_bit_string (controller 8 49) (py_str "0 1 2 3 4 5 6 7 8 9")
      = Ok bits /\
    for_each (filter (fun i => __is_digit i = true)
                (py_str "0 1 2 3 4 5 6 7 8 9")) append_glyph [] = Ok bits /\
    len bits = NUM_LEDS (controller 8 49).
Proof.
  apply (text_to_bit_string_exact_fit (controller 8 49)
           (py_str "0 1 2 3 4 5 6 7 8 9")).
  reflexivity.
Defined.

(** *** The bit canvas *)

(** When the encoding of the text fits the matrix, the bit canvas is the
    encoding followed by zeros up to [rows * cols] bits: the text sits
    at the start of the canvas. *)
Theorem text_to_bit_string_pads (rows cols : Z) (text : str) :
  0 < rows -> 0 < cols -> len (encoding text) <= rows * cols ->
  exists self,
    __init__ rows cols = ([], Ok self) /\
    __text_to_bit_string self text
    = Ok (encoding text
          ++ replicate (Z.to_nat (rows * cols - len (encoding text))) 0).
Proof.
  intros Hr Hc Hfit. on_controller rows cols.
  rewrite text_to_bit_string_spec by (simpl; nia). cbn [NUM_LEDS controller].
  rewrite canvas_short by (unfold len in Hfit; lia).
  do 3 f_equal. unfold len. lia.
Qed.

Lemma text_to_bit_string_pads_witness :
  exists self,
    __init__ 8 5 = ([], Ok self) /\
    __text_to_bit_string self (py_str "7")
    = Ok (encoding (py_str "7")
          ++ replicate (Z.to_nat (8 * 5 - len (encoding (py_str "7")))) 0).
Proof.
  apply (text_to_bit_string_pads 8 5 (py_str "7")); [lia|lia|].
  vm_compute. discriminate.
Defined.

(** Once the text read so far fills the matrix, what follows it is
    ignored: [run] returns (and prints) the same with and without it. *)
Theorem run_ignores_overflow (rows cols : Z) (t1 t2 : str) (show : bool) :
  0 < rows -> 0 < cols -> rows * cols <= len (encoding t1) ->
  exists self,
    __init__ rows cols = ([], Ok self) /\
    run self (t1 ++ t2) show = run self t1 show.
Proof.
  intros Hr Hc Hfull. on_controller rows cols.
  apply run_ext. rewrite !text_to_bit_string_spec by (simpl; nia).
  cbn [NUM_LEDS controller]. unfold len in Hfull.
  rewrite !canvas_long, encoding_app, take_app_le;
    rewrite ?encoding_app, ?length_app; (done || lia).
Qed.

Lemma run_ignores_overflow_witness :
  exists self,
    __init__ 8 4 = ([], Ok self) /\
    run self (py_str "1" ++ py_str "23") true = run self (py_str "1") true.
Proof.
  apply (run_ignores_overflow 8 4 (py_str "1") (py_str "23") true); [lia|lia|].
  vm_compute. discriminate.
Defined.

(** *** The renderer *)

(** Asking for the console output changes nothing in what [run]
    returns, and printing never raises; without it nothing is
    printed. *)
Theorem run_show_same_result (rows cols : Z) (text : str) :
  0 < rows -> 0 < cols ->
  exists self out,
    __init__ rows cols = ([], Ok self) /\
    snd (run self text true) = Ok out /\
    run self text false = ([], Ok out).
Proof.
  intros Hr Hc. exists (controller rows cols), (render (rows * cols) text).
  split; [by apply init_valid|].
  destruct (run_spec rows cols text true Hr Hc) as (o1 & -> & _).
  destruct (run_spec rows cols text false Hr Hc) as (o2 & -> & Ho).
  by rewrite Ho.
Qed.

Lemma run_show_same_result_witness :
  exists self out,
    __init__ 8 49 = ([], Ok self) /\
    snd (run self (py_str "0 1 2 3 4 5 6 7 8 9") true) = Ok out /\
    run self (py_str "0 1 2 3 4 5 6 7 8 9") false = ([], Ok out).
Proof.
  apply (run_show_same_result 8 49 (py_str "0 1 2 3 4 5 6 7 8 9")); lia.
Defined.

Lemma encoding_no_digit (text : str) :
  (forall c, c ∈ text -> ~ (48 <= c <= 57)%N) ->
  Forall (fun b => b = 0) (encoding text).
Proof.
  intros H. induction text as [|c text IH]; [constructor|].
  rewrite encoding_cons. apply Forall_app. split.
  - destruct (__is_digit c) eqn:Hd; [|constructor].
    apply is_digit_cases in Hd. specialize (H c ltac:(by constructor)).
    destruct Hd as [->|Hd]; [vm_compute; repeat constructor|lia].
  - apply IH. intros c' Hc'. apply H. by constructor.
Qed.

(** A text without a digit (blanks and unsupported characters only)
    renders as [rows * cols] zeros: no LED is lit. *)
Theorem run_no_digit_all_zero (rows cols : Z) (text : str) (show : bool) :
  0 < rows -> 0 < cols ->
  (forall c, c ∈ text -> ~ (ord "0" <= c <= ord "9")%N) ->
  exists self,
    __init__ rows cols = ([], Ok self) /\
    snd (run self text show) = Ok (replicate (Z.to_nat (rows * cols)) 0).
Proof.
  intros Hr Hc Hnd. on_controller rows cols.
  destruct (run_spec rows cols text show Hr Hc) as (o & -> & _).
  simpl. f_equal. symmetry. apply replicate_Permutation.
  rewrite render_Permutation.
  assert (replicate (Z.to_nat (rows * cols)) 0
          = canvas (Z.to_nat (rows * cols)) (encoding text)) as <-; [|done].
  apply replicate_as_Forall. split; [apply canvas_length|].
  unfold canvas. apply Forall_take, Forall_app. split.
  - eapply Forall_impl; [by apply encoding_no_digit|]. by intros ? ->.
  - by apply Forall_replicate.
Qed.

Lemma run_no_digit_all_zero_witness :
  exists self,
    __init__ 8 4 = ([], Ok self) /\
    snd (run self (py_str " a b") true) = Ok (replicate (Z.to_nat (8 * 4)) 0).
Proof.
  apply (run_no_digit_all_zero 8 4 (py_str " a b") true); [lia|lia|].
  intros c Hc. unfold py_str in Hc. simpl in Hc.
  repeat (apply elem_of_cons in Hc as [->|Hc]; [vm_compute; intros [? ?]; done|]).
  by apply elem_of_nil in Hc.
Defined.

(** *** Splitting and arranging *)

Section ChunksMore.
Context {A : Type}.

(** The groups of [chunks] are where one expects them, and only there. *)
Lemma chunks_lookup_Some (n : nat) (l : list A) (j : nat) (g : list A) :
  (0 < n)%nat -> chunks n l !! j = Some g ->
  (n * j < length l)%nat /\ g = take n (drop (n * j) l).
Proof.
  intros Hn. revert l. induction j as [|j IH]; intros l H.
  - destruct l as [|x l]; [done|].
    rewrite chunks_step in H by done. injection H as <-.
    rewrite Nat.mul_0_r. simpl. split; [lia|done].
  - destruct l as [|x l]; [done|].
    rewrite chunks_step in H by done. cbn [lookup list_lookup] in H.
    apply IH in H as [Hlt ->]. rewrite length_drop in Hlt.
    rewrite drop_drop. split; [lia|]. do 2 f_equal. lia.
Qed.

(** A group is never empty, never longer than [n], and full unless it is
    the last. *)
Lemma chunks_group_length (n : nat) (l : list A) (j : nat) (g : list A) :
  (0 < n)%nat -> chunks n l !! j = Some g ->
  (1 <= length g <= n)%nat /\ (S j < length (chunks n l) -> length g = n)%nat.
Proof.
  intros Hn H. pose proof H as H'.
  apply chunks_lookup_Some in H as [Hlt ->]; [|done].
  rewrite length_take, length_drop. split; [lia|].
  intros Hnext. apply lookup_lt_is_Some_2 in Hnext as [g' Hg'].
  apply chunks_lookup_Some in Hg' as [Hlt' _]; [|done]. lia.
Qed.

(** Cutting a list that was joined from such groups gives the groups
    back. *)
Lemma chunks_concat_inv (n : nat) (gs : list (list A)) :
  (0 < n)%nat ->
  (forall j g, gs !! j = Some g ->
     (1 <= length g <= n)%nat /\ (S j < length gs -> length g = n)%nat) ->
  chunks n (concat gs) = gs.
Proof.
  intros Hn. induction gs as [|g gs IH]; intros H; [done|].
  destruct (H 0%nat g eq_refl) as [Hlen Hfull].
  assert (chunks n (concat gs) = gs) as IH'.
  { apply IH. intros j g' Hj. destruct (H (S j) g' Hj) as [? Hf].
    split; [done|]. intros ?. apply Hf. simpl. lia. }
  destruct gs as [|g' gs].
  - simpl. rewrite app_nil_r. apply chunks_last; [|lia].
    destruct g; simpl in *; [lia|done].
  - change (concat (g :: g' :: gs)) with (g ++ concat (g' :: gs)).
    rewrite chunks_app; [by rewrite IH'|done|].
    apply Hfull. simpl. lia.
Qed.
End ChunksMore.

(** [__create_columns_array] never raises.  Joining its groups gives the
    input back; for an input that is not empty, group [j] holds the bits
    [8*j .. 8*j + 7] (the last group what is left of them) and there is
    no group past the input; for the empty input there is one empty
    group. *)
Theorem create_columns_array_groups (bit_string : list Z) :
  exists groups,
    __create_columns_array bit_string = Ok groups /\
    concat groups = bit_string /\
    (bit_string = [] -> groups = [[]]) /\
    (bit_string <> [] -> forall j : nat,
       groups !! j =
       if decide (8 * j < length bit_string)%nat
       then Some (take 8 (drop (8 * j) bit_string)) else None).
Proof.
  exists (columns_of bit_string).
  split; [apply create_columns_array_spec|].
  split; [apply columns_of_concat|].
  split; [by intros ->|].
  intros Hne j. destruct bit_string as [|b bs]; [done|]. unfold columns_of.
  destruct (decide (8 * j < length (b :: bs))%nat) as [Hj|Hj].
  - apply chunks_lookup; [lia|done].
  - destruct (chunks 8 (b :: bs) !! j) as [g|] eqn:E; [|done].
    apply chunks_lookup_Some in E as [? _]; [lia|lia].
Qed.

Lemma flip_length (j : nat) (col : list Z) : length (flip j col) = length col.
Proof. unfold flip. destruct (Nat.odd j); [apply length_reverse|done]. Qed.

Lemma flip_flip (j : nat) (col : list Z) : flip j (flip j col) = col.
Proof. unfold flip. destruct (Nat.odd j); [apply reverse_involutive|done]. Qed.

Lemma imap_flip_flip (columns_array : list (list Z)) :
  imap flip (imap flip columns_array) = columns_array.
Proof.
  assert (forall (f : nat -> list Z -> list Z) (l : list (list Z)),
    (forall j col, f j (f j col) = col) -> imap f (imap f l) = l) as H.
  { intros f l. revert f. induction l as [|col l IH]; intros f Hf; [done|].
    simpl. rewrite Hf. f_equal. apply IH. intros j c. apply Hf. }
  apply H, flip_flip.
Qed.

(** [__arrange_array] never raises, whatever the columns: it returns the
    columns joined in their order, each odd-numbered one reversed. *)
Theorem arrange_array_closed_form (columns_array : list (list Z)) :
  __arrange_array columns_array
  = Ok (concat (imap (fun j col => if Nat.odd j then reverse col else col)
                  columns_array)).
Proof. apply arrange_array_spec. Qed.

Lemma arranged_columns_involutive (bit_string : list Z) :
  arranged (columns_of (arranged (columns_of bit_string))) = bit_string.
Proof.
  destruct bit_string as [|b bs]; [done|].
  unfold columns_of at 2. set (gs := chunks 8 (b :: bs)).
  assert (arranged gs <> []) as Hne.
  { intros E. apply (f_equal length) in E.
    rewrite (Permutation_length (arranged_Permutation gs)) in E.
    unfold gs in E. rewrite chunks_concat in E by lia. done. }
  unfold columns_of. destruct (arranged gs) eqn:Ea; [done|]. rewrite <- Ea.
  unfold arranged at 2. rewrite chunks_concat_inv; [| lia |].
  - unfold arranged. rewrite imap_flip_flip. apply chunks_concat. lia.
  - intros j g Hj. rewrite list_lookup_imap in Hj.
    destruct (gs !! j) as [g0|] eqn:Eg; [|done]. injection Hj as <-.
    rewrite flip_length, length_imap.
    apply (chunks_group_length 8 (b :: bs) j g0); [lia|done].
Qed.

(** Splitting and arranging is its own inverse: applied to its own
    result it gives the first input back.  So the canvas is recovered
    from what [run] returns by the same two steps. *)
Theorem split_arrange_involutive (bit_string : list Z) :
  exists groups arranged_array groups',
    __create_columns_array bit_string = Ok groups /\
    __arrange_array groups = Ok arranged_array /\
    __create_columns_array arranged_array = Ok groups' /\
    __arrange_array groups' = Ok bit_string.
Proof.
  exists (columns_of bit_string), (arranged (columns_of bit_string)),
    (columns_of (arranged (columns_of bit_string))).
  rewrite !create_columns_array_spec, !arrange_array_spec.
  by rewrite arranged_columns_involutive.
Qed.

(** *** The numbering of the LEDs *)

Lemma even_of_nat (k : nat) : Z.even (Z.of_nat k) = Nat.even k.
Proof. rewrite Zeven_mod. apply mod2_of_nat. Qed.

(** The LED that [__print_to_console] reads for row [i] of column [j]:
    counted down the column when [j] is even, up when it is odd. *)
Lemma led_number_value (rows cols i j : Z) :
  0 < rows -> 0 < cols -> 0 <= i < rows -> 0 <= j < cols ->
  led_number (controller rows cols) i j
  = Ok (if Z.even j then j * rows + i else (j + 1) * rows - 1 - i).
Proof.
  intros Hr Hc Hi Hj. unfold led_number. cbn [FIRST_LED controller].
  rewrite <- (Z2Nat.id j) by lia. set (kj := Z.to_nat j).
  assert (kj < first_led_size cols)%nat as Hsz.
  { unfold first_led_size. destruct (Z.even cols); lia. }
  rewrite (getitem_lookup _ _ _ (first_led_table_lookup rows _ _ Hsz)).
  rewrite mod2_of_nat, even_of_nat. unfold first_led_entry.
  destruct (Z.eqb_spec (Z.of_nat kj) 0) as [Hz|Hz].
  - assert (kj = 0%nat) as -> by lia. done.
  - destruct (Nat.even kj); simpl; f_equal; lia.
Qed.

(** On a valid geometry the LED numbers are a one-to-one numbering of
    the matrix: each place (row [i], column [j]) has an LED, it lies in
    the block [j*rows .. j*rows + rows - 1] of its column, two places
    never share an LED, and every LED [0 .. rows*cols - 1] has its
    place. *)
Theorem led_number_bijection (rows cols : Z) :
  0 < rows -> 0 < cols ->
  exists self,
    __init__ rows cols = ([], Ok self) /\
    (forall i j, 0 <= i < rows -> 0 <= j < cols ->
       exists led, led_number self i j = Ok led /\
                   j * rows <= led < (j + 1) * rows) /\
    (forall i j i' j' led,
       0 <= i < rows -> 0 <= j < cols -> 0 <= i' < rows -> 0 <= j' < cols ->
       led_number self i j = Ok led -> led_number self i' j' = Ok led ->
       i = i' /\ j = j') /\
    (forall led, 0 <= led < rows * cols ->
       exists i j, 0 <= i < rows /\ 0 <= j < cols /\
                   led_number self i j = Ok led).
Proof.
  intros Hr Hc. on_controller rows cols. split; [|split].
  - intros i j Hi Hj. rewrite led_number_value by done.
    eexists. split; [done|]. destruct (Z.even j); lia.
  - intros i j i' j' led Hi Hj Hi' Hj' H H'.
    rewrite led_number_value in H, H' by done.
    injection H as H. injection H' as H'.
    assert (j * rows <= led < (j + 1) * rows) by (destruct (Z.even j); lia).
    assert (j' * rows <= led < (j' + 1) * rows) by (destruct (Z.even j'); lia).
    assert (j = j') as <- by nia.
    split; [|done]. destruct (Z.even j); lia.
  - intros led Hled.
    pose proof (Z.div_mod led rows ltac:(lia)) as Hdm.
    pose proof (Z.mod_pos_bound led rows Hr) as Hm.
    assert (0 <= led / rows < cols) as Hj.
    { split; [apply Z.div_pos; lia|apply Z.div_lt_upper_bound; lia]. }
    exists (if Z.even (led / rows) then led mod rows
            else rows - 1 - led mod rows), (led / rows).
    split; [destruct (Z.even (led / rows)); lia|]. split; [done|].
    rewrite led_number_value by (done || destruct (Z.even (led / rows)); lia).
    f_equal. destruct (Z.even (led / rows)); lia.
Qed.

Lemma led_number_bijection_witness :
  exists self,
    __init__ 3 3 = ([], Ok self) /\
    (forall i j, 0 <= i < 3 -> 0 <= j < 3 ->
       exists led, led_number self i j = Ok led /\
                   j * 3 <= led < (j + 1) * 3) /\
    (forall i j i' j' led,
       0 <= i < 3 -> 0 <= j < 3 -> 0 <= i' < 3 -> 0 <= j' < 3 ->
       led_number self i j = Ok led -> led_number self i' j' = Ok led ->
       i = i' /\ j = j') /\
    (forall led, 0 <= led < 3 * 3 ->
       exists i j, 0 <= i < 3 /\ 0 <= j < 3 /\
                   led_number self i j = Ok led).
Proof. apply (led_number_bijection 3 3); lia. Defined.

(** *** What is shown on a matrix of 8 rows *)

Lemma getitem_nat {A} (l : list A) (m : nat) :
  getitem l (Z.of_nat m)
  = match l !! m with Some x => Ok x | None => Raise IndexError end.
Proof.
  unfold getitem.
  destruct (Z.ltb_spec (Z.of_nat m) 0) as [?|_]; [lia|].
  destruct (Z.ltb_spec (Z.of_nat m) 0) as [?|_]; [lia|].
  by rewrite Nat2Z.id.
Qed.

Lemma concat_lookup_uniform {A} (n : nat) (gs : list (list A)) (j k : nat) :
  Forall (fun g => length g = n) gs -> (k < n)%nat ->
  concat gs !! (n * j + k)%nat = gs !! j ≫= (fun g => g !! k).
Proof.
  intros Hgs Hk. revert j. induction Hgs as [|g gs Hg _ IH]; intros j; [done|].
  destruct j as [|j]; simpl.
  - rewrite Nat.mul_0_r. simpl. rewrite lookup_app_l by lia. done.
  - rewrite lookup_app_r by lia.
    replace (n * S j + k - length g)%nat with (n * j + k)%nat by lia.
    apply IH.
Qed.

(** On a canvas of whole columns of 8 bits, what stands at place [k] of
    column [j] after arranging is the bit at place [k] of that column,
    counted from its other end when [j] is odd. *)
Lemma arranged_lookup (bits : list Z) (c j k : nat) :
  length bits = (8 * c)%nat -> (j < c)%nat -> (k < 8)%nat ->
  arranged (chunks 8 bits) !! (8 * j + k)%nat
  = bits !! (8 * j + (if Nat.odd j then 7 - k else k))%nat.
Proof.
  intros Hlen Hj Hk. unfold arranged.
  assert (Forall (fun g => length g = 8%nat) (imap flip (chunks 8 bits))) as Hall.
  { apply Forall_lookup. intros i g Hi. rewrite list_lookup_imap in Hi.
    destruct (chunks 8 bits !! i) as [g0|] eqn:E; simpl in Hi; [|done].
    injection Hi as <-. rewrite flip_length.
    apply chunks_lookup_Some in E as [? ->]; [|lia].
    rewrite length_take, length_drop. lia. }
  rewrite (concat_lookup_uniform 8) by done.
  rewrite list_lookup_imap, chunks_lookup by lia. simpl.
  unfold flip. destruct (Nat.odd j).
  - rewrite reverse_lookup by (rewrite length_take, length_drop; lia).
    rewrite length_take, length_drop.
    rewrite lookup_take_lt by lia. rewrite lookup_drop. f_equal. lia.
  - rewrite lookup_take_lt by lia. by rewrite lookup_drop.
Qed.

Lemma render_getitem_led (cols : Z) (text : str) (i j : Z) :
  0 < cols -> 0 <= i < 8 -> 0 <= j < cols ->
  exists b,
    canvas (Z.to_nat (8 * cols)) (encoding text) !! Z.to_nat (8 * j + i)
      = Some b /\
    getitem (render (8 * cols) text)
      (if Z.even j then j * 8 + i else (j + 1) * 8 - 1 - i) = Ok b.
Proof.
  intros Hc Hi Hj.
  pose proof (canvas_length (Z.to_nat (8 * cols)) (encoding text)) as Hlen.
  unfold render.
  set (bits := canvas (Z.to_nat (8 * cols)) (encoding text)) in *.
  assert (is_Some (bits !! Z.to_nat (8 * j + i))) as [b Hb]
    by (apply lookup_lt_is_Some_2; lia).
  exists b. split; [done|]. unfold columns_of.
  destruct bits as [|b0 bs] eqn:Eb; [simpl in Hlen; lia|]. rewrite <- Eb in *.
  rewrite <- (Z2Nat.id j), <- (Z2Nat.id i) by lia.
  set (kj := Z.to_nat j). set (ki := Z.to_nat i).
  rewrite even_of_nat, <- Nat.negb_odd.
  assert (bits !! (8 * kj + ki)%nat = Some b) as Hb'.
  { rewrite <- Hb. f_equal. lia. }
  destruct (Nat.odd kj) eqn:Hodd; simpl.
  - replace ((Z.of_nat kj + 1) * 8 - 1 - Z.of_nat ki)
      with (Z.of_nat (8 * kj + (7 - ki))) by lia.
    rewrite getitem_nat.
    rewrite (arranged_lookup bits (Z.to_nat cols)) by lia.
    rewrite Hodd. replace (7 - (7 - ki))%nat with ki by lia.
    by rewrite Hb'.
  - replace (Z.of_nat kj * 8 + Z.of_nat ki)
      with (Z.of_nat (8 * kj + ki)) by lia.
    rewrite getitem_nat.
    rewrite (arranged_lookup bits (Z.to_nat cols)) by lia.
    rewrite Hodd. by rewrite Hb'.
Qed.

(** On a matrix of 8 rows the whole chain is right: the LED that
    [__print_to_console] reads for row [i] of column [j] carries, in what
    [run] returns, the bit that the canvas holds for that place, bit
    [8*j + i] (the canvas lists the columns one after the other, top to
    bottom). *)
Theorem led_shows_canvas_bit (cols : Z) (text : str) (i j : Z) :
  0 < cols -> 0 <= i < 8 -> 0 <= j < cols ->
  exists self bits out led b,
    __init__ 8 cols = ([], Ok self) /\
    __text_to_bit_string self text = Ok bits /\
    run self text false = ([], Ok out) /\
    led_number self i j = Ok led /\
    getitem out led = Ok b /\
    getitem bits (8 * j + i) = Ok b.
Proof.
  intros Hc Hi Hj.
  destruct (render_getitem_led cols text i j Hc Hi Hj) as (b & Hb & Hout).
  exists (controller 8 cols), (canvas (Z.to_nat (8 * cols)) (encoding text)),
    (render (8 * cols) text),
    (if Z.even j then j * 8 + i else (j + 1) * 8 - 1 - i), b.
  split; [apply init_valid; lia|].
  split; [apply text_to_bit_string_spec; simpl; lia|].
  split.
  { destruct (run_spec 8 cols text false) as (o & -> & ->); done || lia. }
  split; [apply led_number_value; lia|].
  split; [done|].
  rewrite <- (Z2Nat.id (8 * j + i)) by lia. rewrite getitem_nat. by rewrite Hb.
Qed.

Lemma led_shows_canvas_bit_witness :
  exists self bits out led b,
    __init__ 8 4 = ([], Ok self) /\
    __text_to_bit_string self (py_str "7") = Ok bits /\
    run self (py_str "7") false = ([], Ok out) /\
    led_number self 2 3 = Ok led /\
    getitem out led = Ok b /\
    getitem bits (8 * 3 + 2) = Ok b.
Proof. apply (led_shows_canvas_bit 4 (py_str "7") 2 3); lia. Defined.

Lemma for_each_io_outputs {A} (l : list A) (body : A -> io unit)
    (f : A -> list string) :
  (forall x, x ∈ l -> body x = (f x, Ok tt)) ->
  for_each_io l body = (concat (f <$> l), Ok tt).
Proof.
  induction l as [|x l IH]; intros Hb; [done|].
  simpl. rewrite (Hb x) by constructor. simpl.
  rewrite IH by (intros y Hy; apply Hb; by constructor). done.
Qed.

Lemma concat_singletons {A B} (f : A -> B) (l : list A) :
  concat ((fun x => [f x]) <$> l) = f <$> l.
Proof. induction l as [|x l IH]; [done|]. simpl. f_equal. exact IH. Qed.

Lemma print_to_console_picture (cols : Z) (text : str) :
  0 < cols ->
  __print_to_console (controller 8 cols) (render (8 * cols) text)
  = (picture 8 cols (canvas (Z.to_nat (8 * cols)) (encoding text)), Ok tt).
Proof.
  intros Hc. unfold __print_to_console, picture. cbn [ROWS COLS controller].
  apply for_each_io_outputs. intros i Hi.
  apply elem_of_range in Hi as (ki & -> & Hki).
  rewrite (for_each_io_outputs (range cols) _
    (fun j => [marker (nth (Z.to_nat (j * 8 + Z.of_nat ki))
                         (canvas (Z.to_nat (8 * cols)) (encoding text)) 0)])).
  - simpl. by rewrite concat_singletons.
  - intros j Hj. apply elem_of_range in Hj as (kj & -> & Hkj).
    unfold print_led. rewrite led_number_value by lia.
    destruct (render_getitem_led cols text (Z.of_nat ki) (Z.of_nat kj))
      as (b & Hb & Hout); [lia..|].
    simpl. rewrite Hout. simpl.
    replace (Z.of_nat kj * 8 + Z.of_nat ki) with (8 * Z.of_nat kj + Z.of_nat ki)
      by lia.
    rewrite (nth_lookup_Some _ _ 0 b Hb). unfold marker, print.
    by destruct (b =? 0).
Qed.

(** On a matrix of 8 rows [run] with [show=True] prints the picture of
    the canvas: 8 lines, and on line [i] one marker a column, filled
    ("1 ") where bit [8*j + i] of the canvas is set and empty ("  ")
    where it is not. *)
Theorem run_prints_picture (cols : Z) (text : str) :
  0 < cols ->
  exists self bits out,
    __init__ 8 cols = ([], Ok self) /\
    __text_to_bit_string self text = Ok bits /\
    run self text true = (picture 8 cols bits, Ok out).
Proof.
  intros Hc.
  exists (controller 8 cols), (canvas (Z.to_nat (8 * cols)) (encoding text)),
    (render (8 * cols) text).
  split; [apply init_valid; lia|].
  split; [apply text_to_bit_string_spec; simpl; lia|].
  unfold run. rewrite text_to_bit_string_spec by (simpl; lia).
  cbn [NUM_LEDS controller]. simpl.
  rewrite create_columns_array_spec. simpl.
  rewrite arrange_array_spec. simpl. fold (render (8 * cols) text).
  rewrite print_to_console_picture by done. simpl.
  by rewrite app_nil_r.
Qed.

Lemma run_prints_picture_witness :
  exists self bits out,
    __init__ 8 4 = ([], Ok self) /\
    __text_to_bit_string self (py_str "7") = Ok bits /\
    run self (py_str "7") true = (picture 8 4 bits, Ok out).
Proof. apply (run_prints_picture 4 (py_str "7")). lia. Defined.

(** The picture of the digit 7 on the 8 x 4 matrix, as the class
    docstring draws it. *)
Example picture_seven :
  fst (run (controller 8 4) (py_str "7") true) =
  ["1 "; "1 "; "1 "; "1 "; newline;
   "  "; "  "; "  "; "1 "; newline;
   "  "; "  "; "  "; "1 "; newline;
   "  "; "  "; "  "; "1 "; newline;
   "  "; "  "; "  "; "1 "; newline;
   "  "; "  "; "  "; "1 "; newline;
   "  "; "  "; "  "; "1 "; newline;
   "  "; "  "; "  "; "1 "; newline]%string.
Proof. vm_compute. reflexivity. Qed.
